(** * Sensor decoding and detection pipeline of the lidar tree-detection system

    A shallow embedding of the decoding and detection core of
    [src/lidar-system.js]:

    - [STP23LSensor.parseData]      (height packet decoder),
    - [decodeSCIP]                  (range value codec),
    - [processLidarData] and helpers (scan frame decoder),
    - [dbscan], [expandCluster], [getNeighbors] (spatial clusterer),
    - [fitCircle]                   (circle fitter),
    - [detectTrees]                 (detection pipeline),
    - [STP23LSensor.performMeasurement], [clearHeightData] (sensor state),
    - [readSerialData], [getRealLidarData] (reading of a scan frame),

    and of the relay server of [src/websocket-server.js]
    ([handleClientMessage], [addToHistory], [broadcastToOthers],
    [broadcastClientList] and the connection handlers).

    JavaScript numbers are IEEE-754 binary64 values; they are modelled by
    Rocq's primitive floats, whose [+ - * / sqrt] and comparisons are the
    same IEEE operations.  Values that the program only ever uses as
    integers (character codes, bytes, decoded range values, array lengths
    and indices) are modelled as [Z] or [nat].  Logging and drawing calls
    have no influence on the values computed and are left out. *)

From Stdlib Require Import ZArith List Bool Lia String Ascii Floats Uint63 Sorted.
Import ListNotations.

Local Open Scope Z_scope.

(** ** JavaScript values shared by the components *)

Module Js.

(** One element of a JavaScript string: a UTF-16 code unit. *)
Definition char := Z.

(** The result of [parseInt]: an integer-valued number or [NaN]. *)
Inductive jsnum : Type :=
| JInt (z : Z)
| JNaN.

(** A call either returns or throws; the only exception the modelled
    code can raise on its own is the [TypeError] of a method call on
    [undefined], the other one is the explicit [throw new Error]. *)
Inductive result (A : Type) : Type :=
| Ok (a : A)
| TypeError
| Error (msg : string).

Arguments Ok {A} a.
Arguments TypeError {A}.
Arguments Error {A} msg.

Definition bind {A B} (r : result A) (k : A -> result B) : result B :=
  match r with
  | Ok a => k a
  | TypeError => TypeError
  | Error m => Error m
  end.

(** An integer-valued number as a binary64 value (exact below [2^53]). *)
Definition num_of_Z (z : Z) : float :=
  if z <? 0 then PrimFloat.opp (PrimFloat.of_uint63 (Uint63.of_Z (- z)))
  else PrimFloat.of_uint63 (Uint63.of_Z z).

Definition num_of_nat (n : nat) : float := num_of_Z (Z.of_nat n).

Definition to_number (v : jsnum) : float :=
  match v with
  | JInt z => num_of_Z z
  | JNaN => PrimFloat.nan
  end.

(** The code units of a string literal. *)
Fixpoint codes (s : string) : list char :=
  match s with
  | EmptyString => []
  | String a r => Z.of_nat (nat_of_ascii a) :: codes r
  end.

(** [str.substring(a, b)] for [0 <= a] and [0 <= b]: the two indices are
    swapped when [a > b], and the result holds the code units at the
    indices [min a b <= i < max a b] that exist. *)
Definition substring {A} (a b : nat) (s : list A) : list A :=
  firstn (Nat.max a b - Nat.min a b) (skipn (Nat.min a b) s).

End Js.

Notation "x <- r ;; k" := (Js.bind r (fun x => k))
  (at level 61, r at next level, right associativity).

(** ** RangeValueCodec: [decodeSCIP] *)

Module Scip.
Import Js.

(** [n.toString(2)] for an integer [n]. *)
Fixpoint bits_pos (p : positive) (acc : string) : string :=
  match p with
  | xH => String "1" acc
  | xO q => bits_pos q (String "0" acc)
  | xI q => bits_pos q (String "1" acc)
  end.

Definition toString2 (z : Z) : string :=
  match z with
  | Z0 => "0"
  | Zpos p => bits_pos p ""
  | Zneg p => String "-" (bits_pos p "")
  end.

(** [s.padStart(n, fill)] with a one-character filler. *)
Fixpoint fill_string (n : nat) (fill : ascii) : string :=
  match n with
  | O => EmptyString
  | S m => String fill (fill_string m fill)
  end.

Definition padStart (n : nat) (fill : ascii) (s : string) : string :=
  (fill_string (n - String.length s) fill ++ s)%string.

(** [parseInt(s, 2)]: an optional sign, then the longest prefix of
    binary digits; [NaN] when that prefix is empty.  (The strings built
    by [decodeSCIP] hold no white space, so the leading trim of
    [parseInt] is the identity on them.) *)
Fixpoint digits2 (s : string) (acc : Z) : Z :=
  match s with
  | String "0" r => digits2 r (2 * acc)
  | String "1" r => digits2 r (2 * acc + 1)
  | _ => acc
  end.

Definition starts_with_digit (s : string) : bool :=
  match s with
  | String "0" _ => true
  | String "1" _ => true
  | _ => false
  end.

Definition parseInt2 (s : string) : jsnum :=
  let '(sign, body) :=
    match s with
    | String "-" r => (-1, r)
    | String "+" r => (1, r)
    | _ => (1, s)
    end in
  if starts_with_digit body then JInt (sign * digits2 body 0) else JNaN.

(** [c.charCodeAt(0) - '!'.charCodeAt(0) + 33], then [- 48]. *)
Definition dig (c : char) : Z := (c - 33) + 33.
Definition digsub (c : char) : Z := dig c - 48.

(** [digsub.toString(2).padStart(6, '0')] *)
Definition digbin (c : char) : string := padStart 6 "0" (toString2 (digsub c)).

Definition is_zero_char (o : option char) : bool :=
  match o with
  | Some c => c =? 48
  | None => false
  end.

(** [rangeenc[k].charCodeAt(0)] throws when [rangeenc[k]] is undefined. *)
Definition at_index (rangeenc : list char) (k : nat) : result char :=
  match nth_error rangeenc k with
  | Some c => Ok c
  | None => TypeError
  end.

(** [decodeSCIP(rangeenc)].  The debug line logged for one call in a
    hundred does not touch the result and is left out. *)
Definition decodeSCIP (rangeenc : list char) : result jsnum :=
  if is_zero_char (nth_error rangeenc 0)
     && is_zero_char (nth_error rangeenc 1)
     && is_zero_char (nth_error rangeenc 2)
  then Ok (JInt 0)
  else if is_zero_char (nth_error rangeenc 0) then
    c1 <- at_index rangeenc 1 ;;
    c2 <- at_index rangeenc 2 ;;
    Ok (parseInt2 (digbin c1 ++ digbin c2)%string)
  else
    c0 <- at_index rangeenc 0 ;;
    c1 <- at_index rangeenc 1 ;;
    c2 <- at_index rangeenc 2 ;;
    Ok (parseInt2 (digbin c0 ++ digbin c1 ++ digbin c2)%string).

(** The digit of a character is one of the 64 six-bit values. *)
Definition valid_digit (c : char) : Prop := 0 <= digsub c <= 63.

End Scip.

(** ** HeightPacketDecoder: [STP23LSensor.parseData] *)

Module Stp23l.

Definition PACKET_SIZE : nat := 195.
Definition START_BYTE : Z := 0xAA.
Definition DATA_START_INDEX : nat := 10.
Definition DATA_INTERVAL : nat := 15.

(** [STP23L_CONSTANTS.DATA_FIELDS] *)
Module fields.
Definition DISTANCE_LOW : nat := 0.
Definition DISTANCE_HIGH : nat := 1.
Definition NOISE_LOW : nat := 2.
Definition NOISE_HIGH : nat := 3.
Definition PEAK_1 : nat := 4.
Definition PEAK_2 : nat := 5.
Definition PEAK_3 : nat := 6.
Definition PEAK_4 : nat := 7.
Definition CONFIDENCE : nat := 8.
Definition INTG_1 : nat := 9.
Definition INTG_2 : nat := 10.
Definition INTG_3 : nat := 11.
Definition INTG_4 : nat := 12.
Definition REFTOF_LOW : nat := 13.
Definition REFTOF_HIGH : nat := 14.
End fields.

(** JavaScript's bit operators work on 32-bit two's-complement
    integers: operands and results are wrapped into [-2^31, 2^31). *)
Definition toInt32 (z : Z) : Z := (z + 2 ^ 31) mod 2 ^ 32 - 2 ^ 31.
Definition shl (a n : Z) : Z := toInt32 (Z.shiftl (toInt32 a) (n mod 32)).
Definition bor (a b : Z) : Z := Z.lor (toInt32 a) (toInt32 b).

Record measurement : Type := {
  distance : Z;
  noise : Z;
  peak : Z;
  confidence : Z;
  intg : Z;
  reftof : Z
}.

(** The elements of a [Uint8Array]. *)
Definition is_byte (b : Z) : Prop := 0 <= b < 256.

(** [data[k]] of a [Uint8Array]; every read of the decoder is guarded by
    [i + DATA_INTERVAL < data.length], so the default is never used. *)
Definition byte_at (data : list Z) (k : nat) : Z := nth k data 0.

(** The body of the loop for the record starting at offset [i]. *)
Definition parse_record (data : list Z) (i : nat) : measurement :=
  let distanceHigh := byte_at data (i + fields.DISTANCE_HIGH) in
  let distanceLow := byte_at data (i + fields.DISTANCE_LOW) in
  let noiseHigh := byte_at data (i + fields.NOISE_HIGH) in
  let noiseLow := byte_at data (i + fields.NOISE_LOW) in
  let peak1 := byte_at data (i + fields.PEAK_1) in
  let peak2 := byte_at data (i + fields.PEAK_2) in
  let peak3 := byte_at data (i + fields.PEAK_3) in
  let peak4 := byte_at data (i + fields.PEAK_4) in
  let intg1 := byte_at data (i + fields.INTG_1) in
  let intg2 := byte_at data (i + fields.INTG_2) in
  let intg3 := byte_at data (i + fields.INTG_3) in
  let intg4 := byte_at data (i + fields.INTG_4) in
  let reftofHigh := byte_at data (i + fields.REFTOF_HIGH) in
  let reftofLow := byte_at data (i + fields.REFTOF_LOW) in
  {| distance := bor (shl distanceHigh 8) distanceLow;
     noise := bor (shl noiseHigh 8) noiseLow;
     peak := bor (bor (bor (shl peak1 24) (shl peak2 16)) (shl peak3 8)) peak4;
     confidence := byte_at data (i + fields.CONFIDENCE);
     intg := bor (bor (bor (shl intg1 24) (shl intg2 16)) (shl intg3 8)) intg4;
     reftof := bor (shl reftofHigh 8) reftofLow |}.

(** [for (i = DATA_START_INDEX; i < data.length; i += DATA_INTERVAL)];
    [n] bounds the number of iterations. *)
Fixpoint parse_loop (n : nat) (data : list Z) (i : nat) : list measurement :=
  match n with
  | O => []
  | S m =>
      if (i <? List.length data)%nat then
        (if (i + DATA_INTERVAL <? List.length data)%nat
         then [parse_record data i] else [])
        ++ parse_loop m data (i + DATA_INTERVAL)
      else []
  end.

(** [parseData(data)]; [None] is the [null] returned on a wrong start
    byte.  The loop runs fewer than [data.length] times. *)
Definition parseData (data : list Z) : option (list measurement) :=
  match data with
  | [] => None
  | b :: _ =>
      if b =? START_BYTE
      then Some (parse_loop (List.length data) data DATA_START_INDEX)
      else None
  end.

End Stp23l.

(** ** Scan points *)

Record point : Type := {
  angle : float;
  distance : float;
  x : float;
  y : float
}.

(** ** ScanFrameDecoder: [processLidarData] *)

Module Scan.
Import Js.

(** [LIDAR_CONSTANTS] *)
Definition EXPECTED_DATA_SIZE : nat := 2134.
Definition START_ANGLE : float := (-120)%float.
Definition END_ANGLE : float := 120%float.
Definition TOTAL_POINTS : float := 682%float.
Definition MAX_RANGE : float := 5500%float.
Definition MIN_RANGE : float := 20%float.

(** [Math.PI], the binary64 value nearest to pi (3.141592653589793). *)
Definition PI : float := 0x1.921fb54442d18p+1%float.

Fixpoint findStartIndices_from (i : nat) (data : list char) (startChar : char)
  : list nat :=
  match data with
  | [] => []
  | c :: rest =>
      (if c =? startChar then [i] else [])
      ++ findStartIndices_from (S i) rest startChar
  end.

Definition findStartIndices (data : list char) (startChar : char) : list nat :=
  findStartIndices_from 0 data startChar.

(** [reorganizeRangeData(rangedata)]: for [j = 0 .. 31], the characters
    [rangedata.substring(1 + 66*j, 64 + 66*j)] of the blocks that are
    complete, one after the other. *)
Definition reorganizeRangeData (rangedata : list char) : list char :=
  flat_map
    (fun j =>
       let start := (1 + 66 * j)%nat in
       let end_ := (64 + 66 * j)%nat in
       if (end_ <=? List.length rangedata)%nat
       then substring start end_ rangedata
       else [])
    (seq 0 32).

(** [encodeDistanceData(onlyrangedata)]: the groups of three characters;
    the three reads of one group are below [onlyrangedata.length]. *)
Definition encodeDistanceData (onlyrangedata : list char) : list (list char) :=
  map
    (fun i =>
       let start := (i * 3)%nat in
       [nth start onlyrangedata 0;
        nth (start + 1) onlyrangedata 0;
        nth (start + 2) onlyrangedata 0])
    (seq 0 (List.length onlyrangedata / 3)).

Fixpoint decodeDistanceData (encodeddist : list (list char))
  : result (list jsnum) :=
  match encodeddist with
  | [] => Ok []
  | group :: rest =>
      d <- Scip.decodeSCIP group ;;
      ds <- decodeDistanceData rest ;;
      Ok (d :: ds)
  end.

(** The angle given to the sample of index [i]. *)
Definition angle_of (i : nat) : float :=
  ((START_ANGLE + (240 * num_of_nat i) / TOTAL_POINTS) * PI / 180)%float.

Section Coordinates.
(** [Math.cos] and [Math.sin]: ECMAScript leaves their results
    implementation-approximated, so they are parameters. *)
Variables cos sin : float -> float.

Definition to_point (i : nat) (r : jsnum) : point :=
  let angle := angle_of i in
  let distance := to_number r in
  {| angle := angle;
     distance := distance;
     x := (distance * cos angle)%float;
     y := (distance * sin angle)%float |}.

Fixpoint convert_from (i : nat) (ranges : list jsnum) : list point :=
  match ranges with
  | [] => []
  | r :: rest => to_point i r :: convert_from (S i) rest
  end.

Definition convertToCoordinates (ranges : list jsnum) : list point :=
  convert_from 0 ranges.

(** [processLidarData(rawData)].  Its [catch] logs and throws the error
    again; the messages of the two [throw new Error] are abridged. *)
Definition processLidarData (rawData : list char) : result (list point) :=
  if (List.length rawData <? EXPECTED_DATA_SIZE)%nat
  then Error "packet shorter than EXPECTED_DATA_SIZE"
  else
    let data := substring 0 EXPECTED_DATA_SIZE rawData in
    let startChar := nth 12 data 0 in
    let startIndices := findStartIndices data startChar in
    if (List.length startIndices <? 3)%nat
    then Error "fewer than 3 start markers"
    else
      let rangedata :=
        substring (nth 2 startIndices 0%nat + 1) (List.length data - 1) data in
      let onlyrangedata := reorganizeRangeData rangedata in
      let encodeddist := encodeDistanceData onlyrangedata in
      ranges <- decodeDistanceData encodeddist ;;
      Ok (convertToCoordinates ranges).

End Coordinates.

End Scan.

(** ** SpatialClusterer, CircleFitter and DetectionPipeline *)

Module Detect.
Import Js.
Local Open Scope float_scope.

Record scanParams : Type := {
  startAngle : float;
  endAngle : float;
  numPoints : float;
  maxRange : float;
  minRange : float
}.

(** The four thresholds are numbers read with [parseInt] from the
    controls, hence binary64 values (possibly [NaN]). *)
Record detectionParams : Type := {
  eps : float;
  minPoints : float;
  minRadius : float;
  maxRadius : float
}.

(** [set.has(k)] on a [Set] of indices, kept as the list of its elements. *)
Definition has (s : list nat) (k : nat) : bool := existsb (Nat.eqb k) s.

(** [Math.pow(v, 2)], the square of [v]. *)
Definition pow2 (v : float) : float := v * v.

Section Clustering.
Variable dp : detectionParams.

(** The test of [getNeighbors] on a pair of points. *)
Definition within_eps (point otherPoint : point) : bool :=
  let distance :=
    PrimFloat.sqrt (pow2 (x point - x otherPoint) + pow2 (y point - y otherPoint)) in
  distance <=? eps dp.

(** [getNeighbors(points, index)] for an [index] that is a position of
    [points]: the indices, in increasing order, of the other points within
    [eps].  [dbscan] and [expandCluster] hand it positions only; for
    another index the code throws a [TypeError] at [point.x] when
    [points] is not empty, which the empty list given here does not
    show. *)
Definition getNeighbors (points : list point) (index : nat) : list nat :=
  match nth_error points index with
  | None => []
  | Some point =>
      map fst
        (filter
           (fun '(otherIndex, otherPoint) =>
              negb (Nat.eqb index otherIndex) && within_eps point otherPoint)
           (combine (seq 0 (List.length points)) points))
  end.

(** [expandCluster]: the loop [while (i < neighbors.length)] over an
    array that grows at its end.  [neighbors] is the part of the array
    from position [i] on, so that [neighbors.push(...newNeighbors)] is
    an append and [i++] drops the head.  A cluster is an array of
    references to elements of [points]; the reference [points[k]] is
    kept as its index [k], which tells two occurrences of one object
    from two points with equal coordinates.  [noise] is only read.
    The result is the final [(cluster, visited)], or [None] when
    [fuel] iterations were not enough. *)
Fixpoint expandCluster (fuel : nat) (points : list point)
    (neighbors cluster visited noise : list nat)
  : option (list nat * list nat) :=
  match fuel with
  | O => None
  | S fuel' =>
      match neighbors with
      | [] => Some (cluster, visited)
      | neighborIndex :: rest =>
          let '(visited', rest') :=
            if negb (has visited neighborIndex) then
              let newNeighbors := getNeighbors points neighborIndex in
              (neighborIndex :: visited,
               if minPoints dp <=? num_of_nat (List.length newNeighbors)
               then (rest ++ newNeighbors)%list
               else rest)
            else (visited, rest) in
          let cluster' :=
            if negb (has noise neighborIndex)
            then (cluster ++ [neighborIndex])%list
            else cluster in
          expandCluster fuel' points rest' cluster' visited' noise
      end
  end.

(** Iterations that always suffice for [expandCluster] on [points]. *)
Definition expand_fuel (points : list point) : nat :=
  S (List.length points * List.length points).

Record dbstate : Type := {
  clusters : list (list nat);
  visited : list nat;
  noise : list nat
}.

(** The callback of [points.forEach] in [dbscan]. *)
Definition dbscan_step (points : list point) (st : option dbstate) (index : nat)
  : option dbstate :=
  match st with
  | None => None
  | Some st =>
      if has (visited st) index then Some st
      else
        let visited' := index :: visited st in
        let neighbors := getNeighbors points index in
        if num_of_nat (List.length neighbors) <? minPoints dp then
          Some {| clusters := clusters st;
                  visited := visited';
                  noise := index :: noise st |}
        else
          match expandCluster (expand_fuel points) points neighbors
                  [index] visited' (noise st) with
          | None => None
          | Some (cluster, visited'') =>
              Some {| clusters := (clusters st ++ [cluster])%list;
                      visited := visited'';
                      noise := noise st |}
          end
  end.

(** The run of [dbscan] with its final [visited] and [noise] sets. *)
Definition dbscan_run (points : list point) : option dbstate :=
  fold_left (dbscan_step points) (seq 0 (List.length points))
    (Some {| clusters := []; visited := []; noise := [] |}).

(** [dbscan(points)]; [dbscan_run] never runs out of iterations
    (lemma [dbscan_run_total] below). *)
Definition dbscan (points : list point) : list (list nat) :=
  match dbscan_run points with
  | Some st => clusters st
  | None => []
  end.

End Clustering.

Record circle : Type := {
  center : float * float;
  radius : float
}.

(** The nine moment sums, accumulated from 0 in array order. *)
Definition sum_of (f : point -> float) (points : list point) : float :=
  fold_left (fun acc point => acc + f point) points 0.

(** The coefficients [A], [B], [C], [D], [E] of the normal equations of
    [fitCircle], with the sums they are built from. *)
Definition normal_equations (points : list point)
  : float * float * float * float * float :=
  let sumX := sum_of (fun p => x p) points in
  let sumY := sum_of (fun p => y p) points in
  let sumX2 := sum_of (fun p => x p * x p) points in
  let sumY2 := sum_of (fun p => y p * y p) points in
  let sumXY := sum_of (fun p => x p * y p) points in
  let sumX3 := sum_of (fun p => x p * x p * x p) points in
  let sumY3 := sum_of (fun p => y p * y p * y p) points in
  let sumXY2 := sum_of (fun p => x p * y p * y p) points in
  let sumX2Y := sum_of (fun p => x p * x p * y p) points in
  let n := num_of_nat (List.length points) in
  let A := n * sumX2 - sumX * sumX in
  let B := n * sumXY - sumX * sumY in
  let C := n * sumY2 - sumY * sumY in
  let D := 0.5 * (n * sumXY2 - sumX * sumY2 + n * sumX3 - sumX * sumX2) in
  let E := 0.5 * (n * sumX2Y - sumY * sumX2 + n * sumY3 - sumY * sumY2) in
  (A, B, C, D, E).

(** [det = A * C - B * B] *)
Definition det (points : list point) : float :=
  let '(A, B, C, _, _) := normal_equations points in
  A * C - B * B.

(** The literal [1e-10] (the binary64 value nearest to it). *)
Definition DET_EPSILON : float := 0x1.b7cdfd9d7bdbbp-34.

(** [fitCircle(points)]; [None] is the [null] of its two early returns. *)
Definition fitCircle (points : list point) : option circle :=
  if (List.length points <? 3)%nat then None
  else
    let '(A, B, C, D, E) := normal_equations points in
    let det := A * C - B * B in
    if PrimFloat.abs det <? DET_EPSILON then None
    else
      let centerX := (D * C - B * E) / det in
      let centerY := (A * E - B * D) / det in
      let radius :=
        fold_left
          (fun radius point =>
             let dx := x point - centerX in
             let dy := y point - centerY in
             radius + PrimFloat.sqrt (dx * dx + dy * dy))
          points 0 in
      let n := num_of_nat (List.length points) in
      Some {| center := (centerX, centerY); radius := radius / n |}.

Record tree : Type := {
  tree_center : float * float;
  tree_radius : float;
  diameter : float;
  tree_points : list point
}.

(** The fields of [LidarSystem] that [detectTrees] reads or writes. *)
Record system : Type := {
  scanData : list point;
  trees : list tree;
  scan_params : scanParams;
  detection_params : detectionParams
}.

(** The point objects a cluster refers to. *)
Definition cluster_points (points : list point) (cluster : list nat) : list point :=
  flat_map
    (fun k => match nth_error points k with Some p => [p] | None => [] end)
    cluster.

(** The callback of [clusters.forEach] in [detectTrees]: the trees it
    pushes for one cluster (none or one). *)
Definition detect_cluster (dp : detectionParams) (points : list point)
    (cluster : list nat) : list tree :=
  if minPoints dp <=? num_of_nat (List.length cluster) then
    match fitCircle (cluster_points points cluster) with
    | Some circle =>
        if (minRadius dp <=? radius circle) && (radius circle <=? maxRadius dp)
        then [ {| tree_center := center circle;
                  tree_radius := radius circle;
                  diameter := radius circle * 2;
                  tree_points := cluster_points points cluster |} ]
        else []
    | None => []
    end
  else [].

Definition validPoints (s : system) : list point :=
  filter
    (fun point =>
       (minRange (scan_params s) <? distance point)
       && (distance point <? maxRange (scan_params s)))
    (scanData s).

(** [detectTrees()]: the new state of the system. *)
Definition detectTrees (s : system) : system :=
  match scanData s with
  | [] => s
  | _ :: _ =>
      let dp := detection_params s in
      let validPoints := validPoints s in
      if num_of_nat (List.length validPoints) <? minPoints dp then s
      else
        let clusters := dbscan dp validPoints in
        {| scanData := scanData s;
           trees := flat_map (detect_cluster dp validPoints) clusters;
           scan_params := scan_params s;
           detection_params := detection_params s |}
  end.

End Detect.

(** ** Concrete inputs used in the evaluations below *)

Module Inputs.
Import Js.

(** A 195-byte height packet: start byte 0xAA, nine header bytes, then
    the bytes 0x00 and 0x64 at offsets 10 and 11, zeros elsewhere. *)
Definition packet_00_64 : list Z :=
  0xAA :: repeat 0 9 ++ [0x00; 0x64] ++ repeat 0 183.

Definition LF : char := 10.

(** One 66-character payload line: 64 data characters, a check
    character and a line feed. *)
Definition line (c : char) : list char := repeat c 64 ++ [c; LF].

(** A well-formed scan response of 2134 characters: the echo of the
    command and the status and time-stamp lines (23 characters, the
    third line feed at index 22), 31 full payload lines, a last line of
    62 data characters, and the closing line feed. *)
Definition synthetic_frame : list char :=
  codes "GD0044072500" ++ [LF] ++ codes "00P" ++ [LF]
  ++ codes "0DKO>" ++ [LF]
  ++ List.concat (repeat (line 65) 31)
  ++ repeat 65 62 ++ [65; LF]
  ++ [LF].

End Inputs.

(** ** Auxiliary definitions for the proofs *)

Module Aux.
Import Js.

(** The part of [processLidarData] before [convertToCoordinates]: the
    decoded range values of a frame. *)
Definition frame_ranges (rawData : list char) : result (list jsnum) :=
  if (List.length rawData <? Scan.EXPECTED_DATA_SIZE)%nat
  then Error "packet shorter than EXPECTED_DATA_SIZE"
  else
    let data := substring 0 Scan.EXPECTED_DATA_SIZE rawData in
    let startIndices := Scan.findStartIndices data (nth 12 data 0) in
    if (List.length startIndices <? 3)%nat
    then Error "fewer than 3 start markers"
    else
      Scan.decodeDistanceData
        (Scan.encodeDistanceData
           (Scan.reorganizeRangeData
              (substring (nth 2 startIndices 0%nat + 1) (List.length data - 1) data))).

(** Every element of the list is below all the later ones. *)
Fixpoint strictly_increasing (l : list float) : bool :=
  match l with
  | [] => true
  | a :: rest => forallb (fun b => (a <? b)%float) rest && strictly_increasing rest
  end.

(** The angles given to the sample indices [0 .. 681]. *)
Definition angles : list float := map Scan.angle_of (seq 0 682).

Definition ranges_count (r : result (list jsnum)) : option nat :=
  match r with
  | Ok ranges => Some (List.length ranges)
  | _ => None
  end.

End Aux.

(** ** Concrete scans used in the evaluations below *)

Module Scans.
Import Js Detect.
Local Open Scope float_scope.

(** Truncated power series standing in for [Math.cos] and [Math.sin]
    where an evaluation needs some implementation of them. *)
Definition cos_series (a : float) : float :=
  1 - a * a / 2 + a * a * a * a / 24.

Definition sin_series (a : float) : float :=
  a - a * a * a / 6 + a * a * a * a * a / 120.

(** The scan decoded from the synthetic frame. *)
Definition synthetic_scan : list point :=
  match Scan.processLidarData cos_series sin_series Inputs.synthetic_frame with
  | Ok scan => scan
  | _ => []
  end.

(** A scan point at the coordinates [(a, b)], in millimetres. *)
Definition point_at (a b : float) : point :=
  {| angle := 0; distance := PrimFloat.sqrt (a * a + b * b); x := a; y := b |}.

(** The defaults of the [LidarSystem] constructor. *)
Definition default_scan_params : scanParams :=
  {| startAngle := Scan.START_ANGLE; endAngle := Scan.END_ANGLE;
     numPoints := Scan.TOTAL_POINTS; maxRange := Scan.MAX_RANGE;
     minRange := Scan.MIN_RANGE |}.

Definition default_detection_params : detectionParams :=
  {| eps := 100; minPoints := 5; minRadius := 50; maxRadius := 500 |}.

(** The 36 points with integer offsets on the circle of radius 65. *)
Definition circle65 : list (Z * Z) :=
  [(65,0); (63,16); (60,25); (56,33); (52,39); (39,52); (33,56); (25,60);
   (16,63); (0,65); (-16,63); (-25,60); (-33,56); (-39,52); (-52,39);
   (-56,33); (-60,25); (-63,16); (-65,0); (-63,-16); (-60,-25); (-56,-33);
   (-52,-39); (-39,-52); (-33,-56); (-25,-60); (-16,-63); (0,-65);
   (16,-63); (25,-60); (33,-56); (39,-52); (52,-39); (56,-33); (60,-25);
   (63,-16)]%Z.

(** A trunk of radius 65 mm centred at (1000, 0). *)
Definition trunk_scan : list point :=
  map (fun '(a, b) => point_at (num_of_Z (1000 + a)) (num_of_Z b)) circle65.

Definition trunk_system : system :=
  {| scanData := trunk_scan; trees := [];
     scan_params := default_scan_params;
     detection_params := default_detection_params |}.

(** A later scan with three valid points only, taken after the trunk was
    detected. *)
Definition sparse_scan : list point :=
  [point_at 1000 0; point_at 1000 10; point_at 1000 20].

Definition sparse_system : system :=
  {| scanData := sparse_scan;
     trees := trees (detectTrees trunk_system);
     scan_params := default_scan_params;
     detection_params := default_detection_params |}.

(** The sparse scan taken after the trunk was detected, with the upper
    radius bound lowered to 60 mm since. *)
Definition narrowed_system : system :=
  {| scanData := sparse_scan;
     trees := trees (detectTrees trunk_system);
     scan_params := default_scan_params;
     detection_params :=
       {| eps := 100; minPoints := 5; minRadius := 50; maxRadius := 60 |} |}.

(** Three points of a wall at [x = 1000.1]: collinear, on a vertical line. *)
Definition wall_x : float := 10001 / 10.

Definition wall_points : list point :=
  [point_at wall_x 0; point_at wall_x 100; point_at wall_x 200].

(** Three points on the diagonal. *)
Definition diagonal_points : list point :=
  [point_at 0 0; point_at 1 1; point_at 2 2].



(** Two groups of points that share the border point of index 1: the
    points 0 and 4 have three neighbours each, the point 1 between them
    has two. *)
Definition bridge_points : list point :=
  [point_at (-1) 0; point_at 0 0; point_at (-2) 0; point_at (-1) 1;
   point_at 1 0; point_at 2 0; point_at 1 1].

Definition bridge_params : detectionParams :=
  {| eps := 1; minPoints := 3; minRadius := 50; maxRadius := 500 |}.

End Scans.

(** ** The invariant of the clustering loop *)

Module Clusters.
Import Detect.

(** The number of positions below [n] that are not yet visited. *)
Definition unvisited (n : nat) (visited : list nat) : nat :=
  List.length (filter (fun k => negb (has visited k)) (seq 0 n)).

(** What holds of [clusters], [visited] and [noise] between two
    iterations of [dbscan] over [n] points: noise points are visited;
    the members of the clusters are visited and are not noise; a visited
    point is noise or belongs to a cluster; only positions are visited. *)
Definition dbscan_inv (n : nat) (st : dbstate) : Prop :=
  (forall k, In k (noise st) -> In k (visited st))
  /\ (forall c k, In c (clusters st) -> In k c ->
        In k (visited st) /\ ~ In k (noise st))
  /\ (forall k, In k (visited st) ->
        In k (noise st) \/ exists c, In c (clusters st) /\ In k c)
  /\ (forall k, In k (visited st) -> (k < n)%nat).

End Clusters.

(** ** The height sensor: [STP23LSensor.performMeasurement] *)

Module Sensor.
Import Stp23l.

(** An entry of [heightHistory]. *)
Record reading : Type := {
  height : Z;
  timestamp : Z;
  reading_noise : Z;
  reading_confidence : Z
}.

(** The fields of [STP23LSensor] that a measurement reads or writes;
    [port] tells whether [this.port] is set. *)
Record sensor : Type := {
  port : bool;
  currentHeight : Z;
  heightHistory : list reading;
  measurementCount : nat
}.

(** The state set up by the constructor. *)
Definition constructor : sensor :=
  {| port := false; currentHeight := 0; heightHistory := []; measurementCount := 0 |}.

(** [performMeasurement()], given what [readSerialData()] returned
    ([None] for [null]) and the value of [Date.now()]. *)
Definition performMeasurement (s : sensor) (data : option (list Z)) (now : Z)
  : sensor :=
  if negb (port s) then s
  else
    match data with
    | None => s
    | Some data =>
        if (PACKET_SIZE <=? List.length data)%nat then
          match parseData data with
          | Some (measurement :: _) =>
              {| port := port s;
                 currentHeight := distance measurement;
                 heightHistory :=
                   (heightHistory s
                    ++ [ {| height := distance measurement;
                            timestamp := now;
                            reading_noise := noise measurement;
                            reading_confidence := confidence measurement |} ])%list;
                 measurementCount := S (measurementCount s) |}
          | _ => s
          end
        else s
    end.

(** [clearHeightData()] *)
Definition clearHeightData (s : sensor) : sensor :=
  {| port := port s; currentHeight := 0; heightHistory := []; measurementCount := 0 |}.

(** What the sensor's own methods do to these fields: a measurement, a
    reset of the data, and the setting or clearing of [this.port] by
    [connect] and [disconnect]. *)
Inductive operation : Type :=
| Measure (data : option (list Z)) (now : Z)
| Clear
| SetPort (open : bool).

Definition step (s : sensor) (op : operation) : sensor :=
  match op with
  | Measure data now => performMeasurement s data now
  | Clear => clearHeightData s
  | SetPort open =>
      {| port := open; currentHeight := currentHeight s;
         heightHistory := heightHistory s;
         measurementCount := measurementCount s |}
  end.

Definition run (ops : list operation) : sensor := fold_left step ops constructor.

(** The measurement count is the number of readings, and the current
    height is the height of the latest reading (0 when there is none). *)
Definition consistent (s : sensor) : Prop :=
  measurementCount s = List.length (heightHistory s)
  /\ currentHeight s = last (map height (heightHistory s)) 0.

(** The 32-bit value read from four bytes, most significant first, as
    JavaScript's [<<] and [|] give it: negative from 0x80 on. *)
Definition packed32 (b1 b2 b3 b4 : Z) : Z :=
  b1 * 2 ^ 24 + b2 * 2 ^ 16 + b3 * 2 ^ 8 + b4
  - (if b1 <? 128 then 0 else 2 ^ 32).

End Sensor.

(** ** Reading a scan response: [readSerialData] and [getRealLidarData] *)

Module Serial.
Import Js.

Definition MAX_BUFFER_SIZE : nat := 100 * 100.

(** The loop of [LidarSystem.readSerialData]: [chunks] are the texts that
    the successive [reader.read()] calls deliver (each already decoded by
    [TextDecoder]), the end of the list is the end of the stream
    ([done]); [data] is the text gathered so far. *)
Fixpoint read_loop (chunks : list (list char)) (data : list char) : list char :=
  match chunks with
  | [] => data
  | chunk :: rest =>
      let data := (data ++ chunk)%list in
      if (Scan.EXPECTED_DATA_SIZE <=? List.length data)%nat then data
      else if (MAX_BUFFER_SIZE <? List.length data)%nat then data
      else read_loop rest data
  end.

Definition readSerialData (chunks : list (list char)) : list char :=
  read_loop chunks [].

(** [getRealLidarData()]: [port] tells whether [this.port] is set; the
    command sent and the delay have no part in the value returned. *)
Definition getRealLidarData (cos sin : float -> float) (port : bool)
    (chunks : list (list char)) : result (list point) :=
  if negb port then Error "lidar not connected"
  else
    let data := readSerialData chunks in
    if (List.length data <? Scan.EXPECTED_DATA_SIZE)%nat
    then Error "incomplete packet"
    else Scan.processLidarData cos sin data.

End Serial.

(** ** Binary64 values *)

Module Binary64.

(** Two values that differ in their sign at most. *)
Definition same_magnitude (a b : spec_float) : Prop :=
  match a, b with
  | S754_zero _, S754_zero _ => True
  | S754_infinity _, S754_infinity _ => True
  | S754_nan, S754_nan => True
  | S754_finite _ m e, S754_finite _ m' e' => m = m' /\ e = e'
  | _, _ => False
  end.

End Binary64.

(** ** Density of a point *)

Module Density.
Import Js Detect.

(** The test of [dbscan] on the point of index [i] fails:
    [getNeighbors(points, i).length < minPoints] is false. *)
Definition dense (dp : detectionParams) (points : list point) (i : nat) : bool :=
  negb (num_of_nat (List.length (getNeighbors dp points i)) <? minPoints dp)%float.

(** What [dbscan] keeps of every cluster and every noise point: a cluster
    starts with a dense seed and holds the neighbours of the seed that are
    not noise; a noise point is not dense. *)
Definition seeded (dp : detectionParams) (points : list point) (st : dbstate) : Prop :=
  (forall c, In c (clusters st) ->
     exists seed rest,
       c = seed :: rest
       /\ dense dp points seed = true
       /\ forall k, In k (getNeighbors dp points seed) ->
                    ~ In k (noise st) -> In k c)
  /\ (forall i, In i (noise st) -> dense dp points i = false).




End Density.

(** ** The relay server of [src/websocket-server.js] *)

Module Relay.
Local Open Scope string_scope.

(** JavaScript values as the relay handles them: what [JSON.parse]
    returns, [undefined] for a missing property, and [Date] objects. *)
#[warnings="-register-all"]
Inductive value : Type :=
| VUndefined
| VNull
| VBool (b : bool)
| VNumber (x : float)
| VString (s : string)
| VDate (t : Z)
| VArray (items : list value)
| VObject (fields : list (string * value)).

Fixpoint lookup (key : string) (fields : list (string * value)) : value :=
  match fields with
  | [] => VUndefined
  | (k, v) :: rest => if String.eqb k key then v else lookup key rest
  end.

(** [data.key] for a [data] that is neither [null] nor [undefined], and a
    key that no prototype defines (all the keys read by the relay). *)
Definition get (data : value) (key : string) : value :=
  match data with
  | VObject fields => lookup key fields
  | _ => VUndefined
  end.

(** [v || d] *)
Definition truthy (v : value) : bool :=
  match v with
  | VUndefined => false
  | VNull => false
  | VBool b => b
  | VNumber x => negb (PrimFloat.eqb x 0 || PrimFloat.is_nan x)
  | VString s => negb (String.eqb s "")
  | _ => true
  end.

Definition or_else (v d : value) : value := if truthy v then v else d.

(** Whether the conversion of [v] to a string in a template literal
    returns.  Of the values [JSON.parse] gives, it throws a [TypeError] on
    an object with an own property [toString] (which is no function, and
    [Object.prototype.valueOf] returns no primitive), and on an array that
    [join]s such an object. *)
Fixpoint stringifies (v : value) : bool :=
  match v with
  | VArray items => forallb stringifies items
  | VObject fields =>
      negb (existsb (fun kv => String.eqb (fst kv) "toString") fields)
  | _ => true
  end.

(** An entry of [this.clients]; [ws] names the socket, [deviceName] is
    [undefined] until a [device_info] message sets it. *)
Record client : Type := {
  id : string;
  ws : nat;
  ip : option string;
  connectedAt : Z;
  lastActivity : Z;
  deviceType : value;
  deviceName : value
}.

(** [this.clients] is a [Map]: its entries in insertion order, one per
    key.  [this.dataHistory] is an array. *)
Record server : Type := {
  clients : list (string * client);
  dataHistory : list value
}.

Definition maxHistorySize : nat := 1000.

Definition constructor : server := {| clients := []; dataHistory := [] |}.

Fixpoint map_get (key : string) (m : list (string * client)) : option client :=
  match m with
  | [] => None
  | (k, c) :: rest => if String.eqb k key then Some c else map_get key rest
  end.

(** [map.set(key, c)]: in place when the key is present, at the end
    otherwise. *)
Fixpoint map_set (key : string) (c : client) (m : list (string * client))
  : list (string * client) :=
  match m with
  | [] => [(key, c)]
  | (k, c') :: rest =>
      if String.eqb k key then (key, c) :: rest
      else (k, c') :: map_set key c rest
  end.

Definition map_delete (key : string) (m : list (string * client))
  : list (string * client) :=
  filter (fun kc => negb (String.eqb (fst kc) key)) m.

(** [array.slice(-n)] for [n > 0]: the last [n] elements. *)
Definition slice_last {A} (n : nat) (l : list A) : list A :=
  skipn (List.length l - n) l.

(** [addToHistory(data)] on the array. *)
Definition addToHistory (history : list value) (data : value) : list value :=
  let history := (history ++ [data])%list in
  if (maxHistorySize <? List.length history)%nat
  then slice_last maxHistorySize history
  else history.

Section Handlers.
(** [date.toISOString()], and which sockets have
    [readyState === WebSocket.OPEN] while the event is handled. *)
Variable toISOString : Z -> string.
Variable is_open : nat -> bool.

(** What is sent: the socket and the value given to [JSON.stringify]. *)
Definition sent : Type := (nat * value)%type.

Definition sendToClient (socket : nat) (data : value) : list sent :=
  if is_open socket then [(socket, data)] else [].

Definition broadcastToOthers (m : list (string * client)) (senderId : string)
    (data : value) : list sent :=
  flat_map
    (fun kc =>
       if negb (String.eqb (fst kc) senderId) && is_open (ws (snd kc))
       then sendToClient (ws (snd kc)) data
       else [])
    m.

Definition broadcast (m : list (string * client)) (data : value) : list sent :=
  flat_map
    (fun kc =>
       if is_open (ws (snd kc)) then sendToClient (ws (snd kc)) data else [])
    m.

Definition client_entry (c : client) : value :=
  VObject
    [("id", VString (id c));
     ("deviceType", deviceType c);
     ("deviceName", or_else (deviceName c) (VString "Unknown Device"));
     ("connectedAt", VDate (connectedAt c));
     ("lastActivity", VDate (lastActivity c))].

(** [broadcastClientList()], with the reading [now] of the clock. *)
Definition broadcastClientList (m : list (string * client)) (now : Z) : list sent :=
  broadcast m
    (VObject
       [("type", VString "client_list");
        ("clients", VArray (map (fun kc => client_entry (snd kc)) m));
        ("timestamp", VString (toISOString now))]).

(** The record built by [handleScanData], [handleTreeData],
    [handleHeightData] and [handleStatusUpdate]: the named properties of
    the message are copied under [data]. *)
Definition relayed (type clientId : string) (now : Z) (data : value)
    (keys : list string) : value :=
  VObject
    [("type", VString type);
     ("clientId", VString clientId);
     ("timestamp", VString (toISOString now));
     ("data", VObject (map (fun key => (key, get data key)) keys))].

Definition scan_keys : list string :=
  ["points"; "treeCount"; "scanTime"; "avgDistance"; "maxDistance"]%string.
Definition tree_keys : list string := ["trees"; "treeCount"; "avgDiameter"]%string.
Definition height_keys : list string :=
  ["currentHeight"; "avgHeight"; "heightCount"]%string.
Definition status_keys : list string :=
  ["lidarConnected"; "stp23lConnected"; "isScanning"; "isMeasuring"]%string.

(** [handleScanData], [handleTreeData] and [handleHeightData]: store,
    then relay. *)
Definition handleData (s : server) (type clientId : string) (now : Z)
    (data : value) (keys : list string) : server * list sent :=
  let record := relayed type clientId now data keys in
  ({| clients := clients s; dataHistory := addToHistory (dataHistory s) record |},
   broadcastToOthers (clients s) clientId record).

(** [handleStatusUpdate]: relay only. *)
Definition handleStatusUpdate (s : server) (clientId : string) (now : Z)
    (data : value) : server * list sent :=
  (s, broadcastToOthers (clients s) clientId
        (relayed "status_update" clientId now data status_keys)).

(** [handleClientMessage(clientId, message)]: [parsed] is the value of
    [JSON.parse(message)], [None] when it throws; [tick 0] and [tick 1]
    are the readings of the clock for [lastActivity] and for the time
    stamp of what is sent.  Every exception is caught and logged: the one
    of [data.type] on [null], and the one of the log line of
    [device_info] on a device name that has no string conversion, which
    skips the broadcast of the client list. *)
Definition handleClientMessage (s : server) (clientId : string)
    (parsed : option value) (tick : nat -> Z) : server * list sent :=
  match parsed with
  | None => (s, [])
  | Some data =>
      match map_get clientId (clients s) with
      | None => (s, [])
      | Some c =>
          let c1 :=
            {| id := id c; ws := ws c; ip := ip c; connectedAt := connectedAt c;
               lastActivity := tick 0%nat;
               deviceType := deviceType c; deviceName := deviceName c |} in
          let s1 :=
            {| clients := map_set clientId c1 (clients s);
               dataHistory := dataHistory s |} in
          match data with
          | VUndefined => (s1, [])
          | VNull => (s1, [])
          | _ =>
              match get data "type" with
              | VString type =>
                  if String.eqb type "device_info" then
                    let c2 :=
                      {| id := id c1; ws := ws c1; ip := ip c1;
                         connectedAt := connectedAt c1;
                         lastActivity := lastActivity c1;
                         deviceType :=
                           or_else (get data "deviceType") (VString "unknown");
                         deviceName :=
                           or_else (get data "deviceName")
                             (VString "Unknown Device") |} in
                    let m2 := map_set clientId c2 (clients s1) in
                    ({| clients := m2; dataHistory := dataHistory s1 |},
                     if stringifies (deviceName c2)
                     then broadcastClientList m2 (tick 1%nat)
                     else [])
                  else if String.eqb type "scan_data" then
                    handleData s1 "scan_data" clientId (tick 1%nat) data scan_keys
                  else if String.eqb type "tree_data" then
                    handleData s1 "tree_data" clientId (tick 1%nat) data tree_keys
                  else if String.eqb type "height_data" then
                    handleData s1 "height_data" clientId (tick 1%nat) data height_keys
                  else if String.eqb type "status_update" then
                    handleStatusUpdate s1 clientId (tick 1%nat) data
                  else if String.eqb type "ping" then
                    (s1, sendToClient (ws c1)
                           (VObject [("type", VString "pong");
                                     ("timestamp", VString (toISOString (tick 1%nat)))]))
                  else (s1, [])
              | _ => (s1, [])
              end
          end
      end
  end.

(** The handler of ['connection']: [clientId] is the identifier drawn by
    [generateClientId], [socket] the new socket, [address] its remote
    address; [tick 0 .. tick 4] are the readings of the clock. *)
Definition handleConnection (s : server) (clientId : string) (socket : nat)
    (address : option string) (tick : nat -> Z) : server * list sent :=
  let clientInfo :=
    {| id := clientId; ws := socket; ip := address;
       connectedAt := tick 0%nat; lastActivity := tick 1%nat;
       deviceType := VString "unknown"; deviceName := VUndefined |} in
  let m := map_set clientId clientInfo (clients s) in
  let welcome :=
    sendToClient socket
      (VObject [("type", VString "welcome");
                ("clientId", VString clientId);
                ("message", VString "连接成功");
                ("timestamp", VString (toISOString (tick 2%nat)))]) in
  let history :=
    match dataHistory s with
    | [] => []
    | _ :: _ =>
        sendToClient socket
          (VObject [("type", VString "history");
                    ("data", VArray (slice_last 50 (dataHistory s)));
                    ("timestamp", VString (toISOString (tick 3%nat)))])
    end in
  ({| clients := m; dataHistory := dataHistory s |},
   (welcome ++ history ++ broadcastClientList m (tick 4%nat))%list).

(** The handler of ['close'] for the client [clientId]. *)
Definition handleClose (s : server) (clientId : string) (now : Z)
  : server * list sent :=
  let m := map_delete clientId (clients s) in
  ({| clients := m; dataHistory := dataHistory s |}, broadcastClientList m now).

End Handlers.

(** The events of a session, each with the sockets open at that moment
    and its readings of the clock. *)
Inductive event : Type :=
| Connection (clientId : string) (socket : nat) (address : option string)
| Message (clientId : string) (parsed : option value)
| Close (clientId : string).

Record occurrence : Type := {
  what : event;
  open_sockets : nat -> bool;
  clock : nat -> Z
}.

Definition handle (toISOString : Z -> string) (s : server) (o : occurrence)
  : server * list sent :=
  match what o with
  | Connection clientId socket address =>
      handleConnection toISOString (open_sockets o) s clientId socket address (clock o)
  | Message clientId parsed =>
      handleClientMessage toISOString (open_sockets o) s clientId parsed (clock o)
  | Close clientId =>
      handleClose toISOString (open_sockets o) s clientId (clock o 0%nat)
  end.

(** The state after a sequence of events, from the state [s]. *)
Definition replay (toISOString : Z -> string) (s : server) (os : list occurrence)
  : server :=
  fold_left (fun s o => fst (handle toISOString s o)) os s.

End Relay.

(** A session with three clients, for the examples. *)
Module Sessions.
Import Relay.
Local Open Scope string_scope.

Definition member (name : string) (socket : nat) : client :=
  {| id := name; ws := socket; ip := None; connectedAt := 0; lastActivity := 0;
     deviceType := VString "unknown"; deviceName := VUndefined |}.

Definition three_clients : server :=
  {| clients := [("a", member "a" 1); ("b", member "b" 2); ("c", member "c" 3)];
     dataHistory := [] |}.

Definition tree_message : value :=
  VObject [("type", VString "tree_data"); ("treeCount", VString "2")].

Definition ping_message : value := VObject [("type", VString "ping")].

Definition iso (t : Z) : string := "t".

(** Socket 3 is closed. *)
Definition two_open (socket : nat) : bool := negb (socket =? 3)%nat.

End Sessions.

(** * Properties *)

(** ** RangeValueCodec *)

Section ScipFacts.
Import Js Scip.
Local Open Scope string_scope.

Lemma append_empty_r (s : string) : s ++ "" = s.
Proof. induction s as [|a s IH]; simpl; [reflexivity | now rewrite IH]. Qed.

Lemma parseInt2_digits (s : string) :
  starts_with_digit s = true -> parseInt2 s = JInt (digits2 s 0).
Proof.
  intros Hs. unfold parseInt2.
  destruct s as [|a r]; [discriminate|].
  destruct a as [[] [] [] [] [] [] [] []]; try discriminate Hs;
    cbv beta iota; rewrite Hs; f_equal; lia.
Qed.

(** A digit in [0, 63] is written as exactly six binary characters. *)
Lemma six_bits (n : nat) (r : string) (acc : Z) :
  (n < 64)%nat ->
  let s := padStart 6 "0" (toString2 (Z.of_nat n)) ++ r in
  starts_with_digit s = true /\ digits2 s acc = digits2 r (64 * acc + Z.of_nat n).
Proof.
  intros Hn.
  do 64 (destruct n as [|n];
    [split; [reflexivity | cbn -[Z.mul Z.add]; f_equal; lia] |]).
  lia.
Qed.

Lemma digbin_valid (c : char) (r : string) (acc : Z) :
  valid_digit c ->
  starts_with_digit (digbin c ++ r) = true
  /\ digits2 (digbin c ++ r) acc = digits2 r (64 * acc + digsub c).
Proof.
  intros [Hlo Hhi]. unfold digbin.
  rewrite <- (Z2Nat.id (digsub c)) by assumption.
  apply six_bits. lia.
Qed.

Lemma append_assoc (s t u : string) : (s ++ t) ++ u = s ++ (t ++ u).
Proof. induction s as [|a s IH]; simpl; [reflexivity | now rewrite IH]. Qed.

(** [toString(2)] of a positive integer starts with the digit 1. *)
Lemma bits_pos_head (p : positive) (acc : string) :
  exists t, bits_pos p acc = String "1" t.
Proof.
  revert acc. induction p as [q IH | q IH |]; intros acc; simpl; eauto.
Qed.

Lemma fill_string_head (n : nat) (s : string) :
  n <> 0%nat -> exists t, fill_string n "0" ++ s = String "0" t.
Proof. destruct n as [|m]; [congruence | simpl; eauto]. Qed.

(** Whatever the digit, the padded binary text parses to an integer. *)
Lemma parseInt2_digbin (c : char) (r : string) :
  exists z, parseInt2 (digbin c ++ r) = JInt z.
Proof.
  unfold digbin, padStart.
  destruct (Nat.eq_dec (6 - String.length (toString2 (digsub c))) 0) as [E | E].
  - rewrite E. simpl fill_string. simpl append at 2.
    destruct (digsub c) as [|p|p]; simpl toString2.
    + eexists; reflexivity.
    + destruct (bits_pos_head p "") as [t ->]. eexists; reflexivity.
    + destruct (bits_pos_head p "") as [t ->]. eexists; reflexivity.
  - destruct (fill_string_head _ (toString2 (digsub c)) E) as [t ->].
    eexists; reflexivity.
Qed.

End ScipFacts.

(** C7. For a group whose three characters all have a digit in [0, 63],
    [decodeSCIP] returns an integer in [0, 262143]; when the group starts
    with the character 0 (the two-character encoding) the value is in
    [0, 4095]; and the group 000 decodes to 0.  The value is the base-64
    number made of the digits. *)
Theorem decodeSCIP_valid_range (c0 c1 c2 : Js.char) :
  Scip.valid_digit c0 -> Scip.valid_digit c1 -> Scip.valid_digit c2 ->
  Scip.decodeSCIP (Js.codes "000") = Js.Ok (Js.JInt 0)
  /\ exists v,
      Scip.decodeSCIP [c0; c1; c2] = Js.Ok (Js.JInt v)
      /\ 0 <= v <= 262143
      /\ (c0 = 48 -> 0 <= v <= 4095 /\ v = 64 * Scip.digsub c1 + Scip.digsub c2)
      /\ (c0 <> 48 -> v = 4096 * Scip.digsub c0 + 64 * Scip.digsub c1 + Scip.digsub c2).
Proof.
  intros H0 H1 H2. split; [reflexivity|].
  assert (B0 := H0). assert (B1 := H1). assert (B2 := H2).
  unfold Scip.valid_digit in B0, B1, B2.
  unfold Scip.decodeSCIP. cbn [nth_error Scip.is_zero_char Scip.at_index Js.bind].
  destruct (Z.eqb_spec c0 48) as [E0 | E0].
  - cbn [andb]. destruct ((c1 =? 48) && (c2 =? 48)) eqn:E12.
    + apply andb_true_iff in E12 as [E1 E2].
      apply Z.eqb_eq in E1, E2. subst c1 c2.
      exists 0. unfold Scip.digsub, Scip.dig. repeat split; lia.
    + destruct (digbin_valid c1 (Scip.digbin c2) 0 H1) as [S1 D1].
      rewrite (parseInt2_digits _ S1), D1.
      assert (D2' : forall acc, Scip.digits2 (Scip.digbin c2) acc = 64 * acc + Scip.digsub c2).
      { intros acc. destruct (digbin_valid c2 "" acc H2) as [_ D].
        rewrite append_empty_r in D. exact D. }
      rewrite D2'. eexists; split; [reflexivity|].
      repeat split; lia.
  - cbn [andb].
    destruct (digbin_valid c0 (Scip.digbin c1 ++ Scip.digbin c2)%string 0 H0) as [S0 D0].
    rewrite (parseInt2_digits _ S0), D0.
    destruct (digbin_valid c1 (Scip.digbin c2) (64 * 0 + Scip.digsub c0) H1) as [_ D1].
    rewrite D1.
    destruct (digbin_valid c2 "" (64 * (64 * 0 + Scip.digsub c0) + Scip.digsub c1) H2) as [_ D2].
    rewrite append_empty_r in D2. rewrite D2. cbn [Scip.digits2].
    eexists; split; [reflexivity|].
    repeat split; lia.
Qed.

Lemma decodeSCIP_valid_range_witness :
  Scip.decodeSCIP (Js.codes "000") = Js.Ok (Js.JInt 0)
  /\ exists v,
      Scip.decodeSCIP [49; 68; 104] = Js.Ok (Js.JInt v)
      /\ 0 <= v <= 262143
      /\ (49 = 48 -> 0 <= v <= 4095 /\ v = 64 * Scip.digsub 68 + Scip.digsub 104)
      /\ (49 <> 48 -> v = 4096 * Scip.digsub 49 + 64 * Scip.digsub 68 + Scip.digsub 104).
Proof.
  apply (decodeSCIP_valid_range 49 68 104); unfold Scip.valid_digit; vm_compute;
    split; discriminate.
Defined.

(** C5 (as stated, refuted).  The character p has digit 64, outside
    [0, 63], and the group p00 is decoded to the integer 262144; the
    character / has digit -1 and the group 0/0 is decoded to 0. *)
Lemma decodeSCIP_out_of_range_returns :
  ~ Scip.valid_digit 112
  /\ Scip.decodeSCIP (Js.codes "p00") = Js.Ok (Js.JInt 262144)
  /\ ~ Scip.valid_digit 47
  /\ Scip.decodeSCIP (Js.codes "0/0") = Js.Ok (Js.JInt 0).
Proof.
  unfold Scip.valid_digit.
  repeat split; try reflexivity; vm_compute; intros [H1 H2]; auto.
Qed.

(** C5 (amended).  [decodeSCIP] checks no digit: for every group of three
    characters, whatever their digits, it returns an integer and never
    fails. *)
Theorem decodeSCIP_never_fails (c0 c1 c2 : Js.char) :
  exists z, Scip.decodeSCIP [c0; c1; c2] = Js.Ok (Js.JInt z).
Proof.
  unfold Scip.decodeSCIP. cbn [nth_error Scip.is_zero_char Scip.at_index Js.bind].
  destruct ((c0 =? 48) && (c1 =? 48) && (c2 =? 48)); [eexists; reflexivity|].
  destruct (c0 =? 48).
  - destruct (parseInt2_digbin c1 (Scip.digbin c2)) as [z ->]. eauto.
  - destruct (parseInt2_digbin c0 (Scip.digbin c1 ++ Scip.digbin c2)%string) as [z ->]. eauto.
Qed.

(** ** HeightPacketDecoder *)

Section Stp23lFacts.
Import Stp23l.

Lemma toInt32_small (z : Z) : - 2 ^ 31 <= z < 2 ^ 31 -> toInt32 z = z.
Proof.
  intros H. unfold toInt32.
  rewrite Z.mod_small by lia. lia.
Qed.

(** On two bytes, [(high << 8) | low] is [256 * high + low]. *)
Lemma bor_shl_bytes (high low : Z) :
  is_byte high -> is_byte low -> bor (shl high 8) low = 256 * high + low.
Proof.
  unfold is_byte. intros Hh Hl. unfold bor, shl.
  change (8 mod 32) with 8.
  assert (Hs : Z.shiftl high 8 = high * 256)
    by (rewrite Z.shiftl_mul_pow2 by lia; reflexivity).
  rewrite (toInt32_small high) by lia.
  rewrite !(toInt32_small (Z.shiftl high 8)) by lia.
  rewrite (toInt32_small low) by lia.
  assert (Hland : Z.land (Z.shiftl high 8) low = 0); [|
    rewrite <- (Z.lxor_lor _ _ Hland), <- (Z.add_nocarry_lxor _ _ Hland);
    lia ].
  - apply Z.bits_inj'. intros n Hn.
    rewrite Z.land_spec, Z.bits_0.
    destruct (Z.lt_ge_cases n 8) as [Hlt | Hge].
    + rewrite Z.shiftl_spec_low by assumption. reflexivity.
    + assert (Z.testbit low n = false) as ->.
      { destruct (Z.eq_dec low 0) as [-> | Hz]; [apply Z.bits_0|].
        apply Z.bits_above_log2; [lia|].
        apply Z.log2_lt_pow2; [lia|].
        apply Z.lt_le_trans with (2 ^ 8); [lia|].
        apply Z.pow_le_mono_r; lia. }
      apply andb_false_r.
Qed.

Lemma parse_loop_step (n : nat) (data : list Z) (i : nat) :
  (i + DATA_INTERVAL < List.length data)%nat ->
  parse_loop (S n) data i
  = parse_record data i :: parse_loop n data (i + DATA_INTERVAL).
Proof.
  intros H. cbn [parse_loop].
  assert ((i <? List.length data)%nat = true) as ->
    by (apply Nat.ltb_lt; unfold DATA_INTERVAL in H; lia).
  assert ((i + DATA_INTERVAL <? List.length data)%nat = true) as ->
    by (apply Nat.ltb_lt; exact H).
  reflexivity.
Qed.

(** The iteration bound of [parseData] is never the reason the loop
    stops: one more iteration changes nothing. *)
Lemma parse_loop_enough (n : nat) (data : list Z) (i : nat) :
  (List.length data <= i + n * DATA_INTERVAL)%nat ->
  parse_loop (S n) data i = parse_loop n data i.
Proof.
  revert i. induction n as [|n IH]; intros i H.
  - cbn [parse_loop].
    assert ((i <? List.length data)%nat = false) as ->
      by (apply Nat.ltb_ge; lia).
    reflexivity.
  - change (parse_loop (S (S n)) data i)
      with (if (i <? List.length data)%nat
            then (if (i + DATA_INTERVAL <? List.length data)%nat
                  then [parse_record data i] else [])
                 ++ parse_loop (S n) data (i + DATA_INTERVAL)
            else []).
    rewrite IH by (unfold DATA_INTERVAL in *; lia).
    reflexivity.
Qed.

(** [parseData] gives its loop [data.length] iterations, more than it
    ever makes. *)
Lemma parseData_bound_enough (data : list Z) :
  parse_loop (S (List.length data)) data DATA_START_INDEX
  = parse_loop (List.length data) data DATA_START_INDEX.
Proof.
  apply parse_loop_enough. unfold DATA_START_INDEX, DATA_INTERVAL. lia.
Qed.

End Stp23lFacts.

(** C2.  The code at a 195-byte packet with [packet[0] = 0xAA],
    [packet[10] = 0x00] and [packet[11] = 0x64]: the first measurement
    has distance 25600, the two bytes read low byte first, and not the
    100 of the byte order that the remark of the code at this field
    announces (high byte in front, low byte behind). *)
Theorem parseData_distance_not_big_endian :
  List.length Inputs.packet_00_64 = 195%nat
  /\ nth 0 Inputs.packet_00_64 0 = 0xAA
  /\ nth 10 Inputs.packet_00_64 0 = 0x00
  /\ nth 11 Inputs.packet_00_64 0 = 0x64
  /\ exists m rest,
      Stp23l.parseData Inputs.packet_00_64 = Some (m :: rest)
      /\ Stp23l.distance m = 25600
      /\ Stp23l.distance m = nth 10 Inputs.packet_00_64 0
                             + 256 * nth 11 Inputs.packet_00_64 0
      /\ Stp23l.distance m <> 100.
Proof.
  repeat split; try reflexivity.
  eexists _, _. split; [vm_compute; reflexivity|].
  split; [reflexivity|]. split; [reflexivity | discriminate].
Qed.

(** ** ScanFrameDecoder *)

Section ScanFacts.
Import Js Scan.
Variables cos sin : float -> float.

Lemma length_convert_from (ranges : list jsnum) (i : nat) :
  List.length (convert_from cos sin i ranges) = List.length ranges.
Proof.
  revert i. induction ranges as [|r rest IH]; intros i; simpl;
    [reflexivity | now rewrite IH].
Qed.

Lemma nth_error_convert_from (ranges : list jsnum) (i k : nat) :
  nth_error (convert_from cos sin i ranges) k
  = option_map (to_point cos sin (i + k)) (nth_error ranges k).
Proof.
  revert i k. induction ranges as [|r rest IH]; intros i k.
  - destruct k; reflexivity.
  - destruct k as [|k]; simpl.
    + now rewrite Nat.add_0_r.
    + rewrite IH. now rewrite Nat.add_succ_r.
Qed.

Lemma decodeDistanceData_length (groups : list (list char)) (ranges : list jsnum) :
  decodeDistanceData groups = Ok ranges -> List.length ranges = List.length groups.
Proof.
  revert ranges. induction groups as [|g rest IH]; intros ranges H; simpl in H.
  - injection H as <-. reflexivity.
  - destruct (Scip.decodeSCIP g) as [d| |m]; simpl in H; try discriminate.
    destruct (decodeDistanceData rest) as [ds| |m]; simpl in H; try discriminate.
    injection H as <-. simpl. now rewrite (IH ds eq_refl).
Qed.

Lemma encodeDistanceData_length (s : list char) :
  List.length (encodeDistanceData s) = (List.length s / 3)%nat.
Proof. unfold encodeDistanceData. now rewrite length_map, length_seq. Qed.

Lemma length_flat_map_le {A B} (f : A -> list B) (bound : nat) (l : list A) :
  (forall a, List.length (f a) <= bound)%nat ->
  (List.length (flat_map f l) <= List.length l * bound)%nat.
Proof.
  intros Hf. induction l as [|a l IH]; simpl; [lia|].
  rewrite length_app. specialize (Hf a). lia.
Qed.

Lemma length_substring_le {A} (a b : nat) (s : list A) :
  (a <= b)%nat -> (List.length (substring a b s) <= b - a)%nat.
Proof. intros H. unfold substring. rewrite length_firstn. lia. Qed.

(** Each of the 32 blocks contributes at most 63 characters. *)
Lemma reorganizeRangeData_length (rangedata : list char) :
  (List.length (reorganizeRangeData rangedata) <= 2016)%nat.
Proof.
  unfold reorganizeRangeData.
  etransitivity; [apply (length_flat_map_le _ 63)|].
  - intros j. destruct (_ <=? _)%nat; simpl; [|lia].
    etransitivity; [apply length_substring_le; lia | lia].
  - rewrite length_seq. lia.
Qed.

Lemma processLidarData_ranges (rawData : list char) :
  processLidarData cos sin rawData
  = (ranges <- Aux.frame_ranges rawData ;; Ok (convertToCoordinates cos sin ranges)).
Proof.
  unfold processLidarData, Aux.frame_ranges.
  destruct (Nat.ltb (List.length rawData) EXPECTED_DATA_SIZE); [reflexivity|].
  cbv zeta.
  match goal with
  | |- context [Nat.ltb (List.length ?l) 3] => destruct (Nat.ltb (List.length l) 3)
  end; reflexivity.
Qed.

(** No frame is decoded into more than 672 samples. *)
Lemma processLidarData_at_most_672 (rawData : list char) (scan : list point) :
  processLidarData cos sin rawData = Ok scan -> (List.length scan <= 672)%nat.
Proof.
  rewrite processLidarData_ranges. unfold Aux.frame_ranges.
  destruct (Nat.ltb (List.length rawData) EXPECTED_DATA_SIZE); [discriminate|].
  cbv zeta.
  match goal with
  | |- context [Nat.ltb (List.length ?l) 3] => destruct (Nat.ltb (List.length l) 3)
  end; [discriminate|].
  match goal with
  | |- context [decodeDistanceData ?g] =>
      destruct (decodeDistanceData g) as [ranges| |m] eqn:E
  end; simpl; try discriminate.
  intros H. injection H as <-.
  unfold convertToCoordinates. rewrite length_convert_from.
  rewrite (decodeDistanceData_length _ _ E), encodeDistanceData_length.
  match goal with
  | |- context [reorganizeRangeData ?r] =>
      pose proof (reorganizeRangeData_length r) as Hr
  end.
  apply Nat.Div0.div_le_upper_bound. lia.
Qed.

Lemma strictly_increasing_nth (l : list float) :
  Aux.strictly_increasing l = true ->
  forall i j a b, (i < j)%nat ->
    nth_error l i = Some a -> nth_error l j = Some b -> (a <? b)%float = true.
Proof.
  induction l as [|c rest IH]; intros H i j a b Hij Ha Hb.
  - destruct i; discriminate.
  - cbn [Aux.strictly_increasing] in H. apply andb_true_iff in H as [Hc Hrest].
    destruct j as [|j]; [lia|]. cbn [nth_error] in Hb.
    destruct i as [|i]; cbn [nth_error] in Ha.
    + injection Ha as <-. rewrite forallb_forall in Hc.
      apply Hc. eapply nth_error_In. exact Hb.
    + apply (IH Hrest i j); [lia | assumption | assumption].
Qed.

Lemma angles_increasing : Aux.strictly_increasing Aux.angles = true.
Proof. vm_compute. reflexivity. Qed.

Lemma nth_error_angles (i : nat) :
  (i < 682)%nat -> nth_error Aux.angles i = Some (angle_of i).
Proof.
  intros Hi. unfold Aux.angles.
  rewrite nth_error_map, nth_error_seq.
  apply Nat.ltb_lt in Hi. rewrite Hi. reflexivity.
Qed.

Lemma angle_of_increasing (i j : nat) :
  (i < j)%nat -> (j < 682)%nat -> (angle_of i <? angle_of j)%float = true.
Proof.
  intros Hij Hj.
  apply (strictly_increasing_nth Aux.angles angles_increasing i j); [exact Hij | |].
  - apply nth_error_angles. lia.
  - apply nth_error_angles. exact Hj.
Qed.

End ScanFacts.

(** C1.  The code at a well-formed frame of 2134 characters: the decoder
    returns, and the scan has 672 samples (32 blocks of 63 retained
    characters make 672 groups), not the 682 of [TOTAL_POINTS]. *)
Theorem processLidarData_synthetic_frame (cos sin : float -> float) :
  List.length Inputs.synthetic_frame = 2134%nat
  /\ exists scan,
      Scan.processLidarData cos sin Inputs.synthetic_frame = Js.Ok scan
      /\ List.length scan = 672%nat
      /\ List.length scan <> 682%nat.
Proof.
  split; [reflexivity|].
  rewrite processLidarData_ranges.
  assert (H : Aux.ranges_count (Aux.frame_ranges Inputs.synthetic_frame) = Some 672%nat)
    by (vm_compute; reflexivity).
  destruct (Aux.frame_ranges Inputs.synthetic_frame) as [ranges| |m];
    simpl in H; try discriminate.
  injection H as H.
  eexists. split; [reflexivity|].
  unfold Scan.convertToCoordinates. rewrite length_convert_from, H.
  split; [reflexivity | discriminate].
Qed.

(** C8.  Every scan that [processLidarData] returns has one sample for
    each decoded range value, in order: the sample of index [i] exists
    exactly when [i] is below the number of range values, its distance is
    the range value of index [i], its angle is
    [(-120 + (240 * i) / 682) * PI / 180], a function of the index alone,
    and its coordinates are [x = distance * cos angle] and
    [y = distance * sin angle].  The angles are strictly increasing along
    the scan, and the angle of index 0 is -120 degrees in radians. *)
Theorem scan_angles_linear (cos sin : float -> float)
    (rawData : list Js.char) (scan : list point) :
  Scan.processLidarData cos sin rawData = Js.Ok scan ->
  exists ranges,
    Aux.frame_ranges rawData = Js.Ok ranges
    /\ scan = Scan.convertToCoordinates cos sin ranges
    /\ List.length scan = List.length ranges
    /\ (forall i r, nth_error ranges i = Some r ->
          exists p,
            nth_error scan i = Some p
            /\ distance p = Js.to_number r
            /\ angle p = ((-120 + (240 * Js.num_of_nat i) / 682) * Scan.PI / 180)%float
            /\ x p = (distance p * cos (angle p))%float
            /\ y p = (distance p * sin (angle p))%float)
    /\ (forall i p, nth_error scan i = Some p ->
          exists r, nth_error ranges i = Some r /\ distance p = Js.to_number r)
    /\ (forall i j p q, (i < j)%nat ->
          nth_error scan i = Some p -> nth_error scan j = Some q ->
          (angle p <? angle q)%float = true)
    /\ (forall p, nth_error scan 0 = Some p ->
          angle p = (-120 * Scan.PI / 180)%float).
Proof.
  intros Hscan.
  pose proof (processLidarData_at_most_672 cos sin rawData scan Hscan) as Hlen.
  rewrite processLidarData_ranges in Hscan.
  destruct (Aux.frame_ranges rawData) as [ranges| |m]; simpl in Hscan; try discriminate.
  injection Hscan as <-.
  exists ranges. split; [reflexivity|]. split; [reflexivity|].
  assert (Hnth : forall i, nth_error (Scan.convertToCoordinates cos sin ranges) i
                           = option_map (Scan.to_point cos sin i) (nth_error ranges i)).
  { intros i. unfold Scan.convertToCoordinates.
    now rewrite nth_error_convert_from. }
  split; [apply length_convert_from|]. split; [|split; [|split]].
  - intros i r Hr. exists (Scan.to_point cos sin i r).
    rewrite Hnth, Hr. repeat split.
  - intros i p Hp. rewrite Hnth in Hp.
    destruct (nth_error ranges i) as [r|]; [|discriminate].
    injection Hp as <-. exists r. split; reflexivity.
  - intros i j p q Hij Hp Hq.
    assert (Hj : (j < List.length (Scan.convertToCoordinates cos sin ranges))%nat)
      by (apply nth_error_Some; congruence).
    rewrite Hnth in Hp, Hq.
    destruct (nth_error ranges i) as [r|]; [|discriminate].
    destruct (nth_error ranges j) as [r'|]; [|discriminate].
    injection Hp as <-. injection Hq as <-.
    cbn [angle Scan.to_point]. apply angle_of_increasing; lia.
  - intros p Hp. rewrite Hnth in Hp.
    destruct (nth_error ranges 0) as [r|]; [|discriminate].
    injection Hp as <-.
    cbn [angle Scan.to_point]. vm_compute. reflexivity.
Qed.

Lemma scan_angles_linear_witness :
  List.length Scans.synthetic_scan = 672%nat
  /\ exists ranges,
    Aux.frame_ranges Inputs.synthetic_frame = Js.Ok ranges
    /\ Scans.synthetic_scan
       = Scan.convertToCoordinates Scans.cos_series Scans.sin_series ranges
    /\ List.length Scans.synthetic_scan = List.length ranges
    /\ (forall i r, nth_error ranges i = Some r ->
          exists p,
            nth_error Scans.synthetic_scan i = Some p
            /\ distance p = Js.to_number r
            /\ angle p = ((-120 + (240 * Js.num_of_nat i) / 682) * Scan.PI / 180)%float
            /\ x p = (distance p * Scans.cos_series (angle p))%float
            /\ y p = (distance p * Scans.sin_series (angle p))%float)
    /\ (forall i p, nth_error Scans.synthetic_scan i = Some p ->
          exists r, nth_error ranges i = Some r /\ distance p = Js.to_number r)
    /\ (forall i j p q, (i < j)%nat ->
          nth_error Scans.synthetic_scan i = Some p ->
          nth_error Scans.synthetic_scan j = Some q ->
          (angle p <? angle q)%float = true)
    /\ (forall p, nth_error Scans.synthetic_scan 0 = Some p ->
          angle p = (-120 * Scan.PI / 180)%float).
Proof.
  split; [vm_compute; reflexivity|].
  apply (scan_angles_linear Scans.cos_series Scans.sin_series
           Inputs.synthetic_frame Scans.synthetic_scan).
  vm_compute. reflexivity.
Defined.

(** ** Binary64 arithmetic *)

Section SpecFloatFacts.
Variables prec emax : Z.




Lemma same_magnitude_refl (a : spec_float) : Binary64.same_magnitude a a.
Proof. destruct a; cbn; auto. Qed.




Lemma SFcompare_swap (a b : spec_float) :
  SFcompare b a = option_map CompOpp (SFcompare a b).
Proof.
destruct a as [sa|sa| |sa ma ea], b as [sb|sb| |sb mb eb]; cbn [SFcompare option_map];
  try (destruct sa; reflexivity); try (destruct sb; reflexivity);
  try (destruct sa, sb; reflexivity); try reflexivity.
rewrite !Pos.compare_cont_spec. cbn [Pos.switch_Eq].
rewrite (Z.compare_antisym ea eb), (Pos.compare_antisym ma mb).
destruct sa, sb; cbn [CompOpp]; try reflexivity;
  destruct (ea ?= eb); cbn [CompOpp]; try reflexivity;
  destruct (ma ?= mb)%positive; reflexivity.
Qed.

Lemma SFcompare_refl (a : spec_float) :
  a <> S754_nan -> SFcompare a a = Some Eq.
Proof.
destruct a as [sa|sa| |sa ma ea]; cbn [SFcompare]; intros H; try congruence.
- now destruct sa.
- destruct sa; rewrite Z.compare_refl, Pos.compare_cont_spec, Pos.compare_refl; reflexivity.
Qed.

Lemma SFcompare_none (a b : spec_float) :
  a <> S754_nan -> b <> S754_nan -> SFcompare a b <> None.
Proof.
destruct a as [sa|sa| |sa ma ea], b as [sb|sb| |sb mb eb]; cbn [SFcompare];
  intros Ha Hb; congruence.
Qed.

End SpecFloatFacts.

Section FloatFacts.
Local Open Scope float_scope.

Lemma leb_ltb (a b : float) : (a <=? b) = true -> (b <? a) = false.
Proof.
rewrite FloatAxioms.leb_spec, FloatAxioms.ltb_spec. unfold SFleb, SFltb.
rewrite (SFcompare_swap (Prim2SF a) (Prim2SF b)).
destruct (SFcompare (Prim2SF a) (Prim2SF b)) as [[| |]|]; cbn; congruence.
Qed.

Lemma is_nan_false (a : float) : PrimFloat.is_nan a = false -> Prim2SF a <> S754_nan.
Proof.
unfold PrimFloat.is_nan. rewrite FloatAxioms.eqb_spec. unfold SFeqb.
intros H E. rewrite E in H. cbn in H. discriminate.
Qed.

Lemma ltb_leb (a b : float) :
  PrimFloat.is_nan a = false -> PrimFloat.is_nan b = false ->
  (b <? a) = false -> (a <=? b) = true.
Proof.
intros Ha Hb. apply is_nan_false in Ha, Hb.
rewrite FloatAxioms.leb_spec, FloatAxioms.ltb_spec. unfold SFleb, SFltb.
rewrite (SFcompare_swap (Prim2SF a) (Prim2SF b)).
pose proof (SFcompare_none _ _ Ha Hb) as Hc.
destruct (SFcompare (Prim2SF a) (Prim2SF b)) as [[| |]|]; cbn; congruence.
Qed.


End FloatFacts.

Section NotNan.
Variables prec emax : Z.

Lemma shr_1_nonneg (mrs : shr_record) : 0 <= shr_m mrs -> 0 <= shr_m (shr_1 mrs).
Proof.
destruct mrs as [m r s]. cbn [shr_m]. intros H.
destruct m as [|p|p]; [cbn; lia | | lia].
destruct p; cbn; lia.
Qed.

Lemma iter_shr_1_nonneg (p : positive) (mrs : shr_record) :
  0 <= shr_m mrs -> 0 <= shr_m (iter_pos shr_1 p mrs).
Proof.
revert mrs. induction p as [p IH|p IH|]; intros mrs H; cbn [iter_pos].
- apply IH, IH, shr_1_nonneg, H.
- apply IH, IH, H.
- apply shr_1_nonneg, H.
Qed.

Lemma shr_fexp_nonneg (m e : Z) (l : location) :
  0 <= m -> 0 <= shr_m (fst (shr_fexp prec emax m e l)).
Proof.
intros H. unfold shr_fexp, shr.
assert (H0 : 0 <= shr_m (shr_record_of_loc m l)).
{ destruct l as [|[| |]]; exact H. }
destruct (fexp prec emax (Zdigits2 m + e) - e); cbn [fst]; try exact H0.
apply iter_shr_1_nonneg, H0.
Qed.

Lemma round_nearest_even_nonneg (m : Z) (l : location) :
  0 <= m -> 0 <= round_nearest_even m l.
Proof.
intros H. unfold round_nearest_even.
destruct l as [|[| |]]; try lia. destruct (Z.even m); lia.
Qed.

Lemma binary_round_aux_not_nan (s : bool) (m e : Z) (l : location) :
  0 <= m -> binary_round_aux prec emax s m e l <> S754_nan.
Proof.
intros H. unfold binary_round_aux.
pose proof (shr_fexp_nonneg m e l H) as H1.
destruct (shr_fexp prec emax m e l) as [mrs' e']. cbn [fst] in H1.
pose proof (shr_fexp_nonneg _ e' loc_Exact
              (round_nearest_even_nonneg _ (loc_of_shr_record mrs') H1)) as H2.
destruct (shr_fexp prec emax _ e' loc_Exact) as [mrs'' e'']. cbn [fst] in H2.
destruct (shr_m mrs''); [discriminate| |lia].
destruct (e'' <=? emax - prec); discriminate.
Qed.

Lemma binary_normalize_not_nan (z e : Z) (s : bool) :
  binary_normalize prec emax z e s <> S754_nan.
Proof.
destruct z; cbn [binary_normalize]; [discriminate| |];
  unfold binary_round; destruct (shl_align _ _ _) as [mz ez];
  apply binary_round_aux_not_nan; lia.
Qed.

End NotNan.

Lemma is_nan_of_spec (a : float) : Prim2SF a <> S754_nan -> PrimFloat.is_nan a = false.
Proof.
intros H. unfold PrimFloat.is_nan. rewrite FloatAxioms.eqb_spec. unfold SFeqb.
destruct (Prim2SF a) as [s|s| |s m e] eqn:E; cbn [SFcompare]; try reflexivity.
- now destruct s.
- congruence.
- destruct s; rewrite Z.compare_refl, Pos.compare_cont_spec, Pos.compare_refl; reflexivity.
Qed.

Lemma num_of_nat_not_nan (n : nat) : PrimFloat.is_nan (Js.num_of_nat n) = false.
Proof.
apply is_nan_of_spec. unfold Js.num_of_nat, Js.num_of_Z.
destruct (Z.ltb_spec (Z.of_nat n) 0) as [H|H]; [lia|].
rewrite FloatAxioms.of_uint63_spec. apply binary_normalize_not_nan.
Qed.

(** ** SpatialClusterer *)

Section NeighbourFacts.
Import Js Detect Density.
Variable dp : detectionParams.

Lemma in_combine_seq {A} (l : list A) :
  forall i k a,
    In (k, a) (combine (seq i (List.length l)) l)
    <-> (i <= k)%nat /\ nth_error l (k - i) = Some a.
Proof.
  induction l as [|b l IH]; intros i k a; cbn [List.length seq combine].
  - split; [intros [] | intros [_ H]; destruct (k - i)%nat; discriminate].
  - cbn [In]. rewrite IH. split.
    + intros [E | [Hle H]].
      * injection E as <- <-. rewrite Nat.sub_diag. split; [lia | reflexivity].
      * split; [lia|]. replace (k - i)%nat with (S (k - S i)) by lia. exact H.
    + intros [Hle H]. destruct (Nat.eq_dec k i) as [-> | Hne].
      * left. rewrite Nat.sub_diag in H. cbn [nth_error] in H. congruence.
      * right. split; [lia|].
        replace (k - i)%nat with (S (k - S i)) in H by lia. exact H.
Qed.

Lemma sorted_filter_combine_seq {A} (f : nat * A -> bool) (l : list A) :
  forall i, StronglySorted lt (map fst (filter f (combine (seq i (List.length l)) l))).
Proof.
  induction l as [|b l IH]; intros i; cbn [List.length seq combine filter];
    [constructor|].
  destruct (f (i, b)); cbn [map fst]; [|apply IH].
  constructor; [apply IH|].
  apply Forall_forall. intros k Hk.
  apply in_map_iff in Hk as [[k' a] [E Hin]]. cbn [fst] in E. subst k'.
  apply filter_In in Hin as [Hin _].
  apply in_combine_seq in Hin. lia.
Qed.

End NeighbourFacts.


Section ClusterFacts.
Import Js Detect Clusters.
Variable dp : detectionParams.
Variable points : list point.

Lemma has_true_iff (s : list nat) (k : nat) : has s k = true <-> In k s.
Proof.
  unfold has. rewrite existsb_exists. split.
  - intros [j [Hj E]]. apply Nat.eqb_eq in E. now subst.
  - intros H. exists k. split; [assumption | apply Nat.eqb_refl].
Qed.

Lemma has_false_iff (s : list nat) (k : nat) : has s k = false <-> ~ In k s.
Proof.
  rewrite <- has_true_iff. destruct (has s k); split; congruence.
Qed.

Lemma getNeighbors_lt (index k : nat) :
  In k (getNeighbors dp points index) -> (k < List.length points)%nat.
Proof.
  unfold getNeighbors. destruct (nth_error points index) as [p|]; [|intros []].
  rewrite in_map_iff. intros [[j q] [E Hin]]. simpl in E. subst j.
  apply filter_In in Hin as [Hin _].
  apply in_combine_l in Hin. apply in_seq in Hin. lia.
Qed.

Lemma getNeighbors_length (index : nat) :
  (List.length (getNeighbors dp points index) <= List.length points)%nat.
Proof.
  unfold getNeighbors. destruct (nth_error points index) as [p|]; simpl; [|lia].
  rewrite length_map.
  etransitivity; [apply filter_length_le|].
  rewrite length_combine, length_seq. lia.
Qed.

Lemma unvisited_le (n : nat) (visited : list nat) : (unvisited n visited <= n)%nat.
Proof.
  unfold unvisited. etransitivity; [apply filter_length_le|].
  now rewrite length_seq.
Qed.

Lemma unvisited_count (visited l : list nat) (k : nat) :
  has visited k = false ->
  let count v := List.length (filter (fun j => negb (has v j)) l) in
  (count (k :: visited) <= count visited)%nat
  /\ (In k l -> (count (k :: visited) < count visited)%nat).
Proof.
  intros Hk. cbv zeta.
  induction l as [|a l [IHle IHlt]]; [split; [reflexivity | intros []]|].
  cbn [filter]. change (has (k :: visited) a) with (Nat.eqb a k || has visited a).
  destruct (Nat.eqb_spec a k) as [-> | Hne]; cbn [orb negb].
  - rewrite Hk. cbn [negb List.length]. split; [lia | intros _; lia].
  - destruct (has visited a); cbn [negb List.length].
    + split; [exact IHle|]. intros [E | Hin]; [congruence | auto].
    + split; [lia|]. intros [E | Hin]; [congruence|]. specialize (IHlt Hin). lia.
Qed.

Lemma unvisited_cons_lt (n : nat) (visited : list nat) (k : nat) :
  (k < n)%nat -> has visited k = false ->
  (unvisited n (k :: visited) < unvisited n visited)%nat.
Proof.
  intros Hk Hv. unfold unvisited.
  apply (unvisited_count visited (seq 0 n) k Hv). apply in_seq. lia.
Qed.

(** [expandCluster] returns within
    [|neighbors| + n * unvisited + 1] iterations, and keeps what the
    invariant of [dbscan] needs. *)
Lemma expandCluster_spec (fuel : nat) :
  forall neighbors cluster visited noise,
    let n := List.length points in
    (forall k, In k neighbors -> (k < n)%nat) ->
    (forall k, In k visited -> (k < n)%nat) ->
    (forall k, In k noise -> In k visited) ->
    (forall k, In k cluster -> In k visited /\ ~ In k noise) ->
    (List.length neighbors + n * unvisited n visited < fuel)%nat ->
    exists cluster' visited',
      expandCluster dp fuel points neighbors cluster visited noise
      = Some (cluster', visited')
      /\ (forall k, In k visited -> In k visited')
      /\ (forall k, In k cluster -> In k cluster')
      /\ (forall k, In k visited' -> (k < n)%nat)
      /\ (forall k, In k cluster' -> In k visited' /\ ~ In k noise)
      /\ (forall k, In k visited' -> In k visited \/ In k cluster').
Proof.
  induction fuel as [|fuel IH]; intros neighbors cluster visited noise n
    Hnb Hvis Hnoise Hcl Hfuel; [lia|].
  destruct neighbors as [|k rest]; cbn [expandCluster].
  - exists cluster, visited. repeat split; auto. apply Hcl; assumption. apply Hcl; assumption.
  - assert (Hk : (k < n)%nat) by (apply Hnb; left; reflexivity).
    assert (Hrest : forall j, In j rest -> (j < n)%nat)
      by (intros j Hj; apply Hnb; right; assumption).
    destruct (has visited k) eqn:Ev; cbn [negb].
    + (* already visited *)
      apply has_true_iff in Ev.
      set (cluster1 := if negb (has noise k) then (cluster ++ [k])%list else cluster).
      assert (Hcl1 : forall j, In j cluster1 -> In j visited /\ ~ In j noise).
      { intros j Hj. subst cluster1. destruct (has noise k) eqn:En; cbn [negb] in Hj.
        - apply Hcl; assumption.
        - apply in_app_or in Hj as [Hj | [<- | []]]; [apply Hcl; assumption|].
          split; [assumption | now apply has_false_iff]. }
      destruct (IH rest cluster1 visited noise Hrest Hvis Hnoise Hcl1)
        as (c' & v' & E & H1 & H2 & H3 & H4 & H5).
      { cbn [List.length] in Hfuel. fold n. lia. }
      exists c', v'. split; [exact E|]. repeat split; auto.
      * intros j Hj. apply H2. subst cluster1.
        destruct (negb (has noise k)); [apply in_or_app; left|]; assumption.
      * apply H4; assumption.
      * apply H4; assumption.
    + (* first visit *)
      assert (Hnk : ~ In k noise).
      { intros Hin. apply Hnoise in Hin. apply has_true_iff in Hin. congruence. }
      assert (En : has noise k = false) by (now apply has_false_iff).
      rewrite En. cbn [negb].
      set (rest1 := if (minPoints dp <=? num_of_nat (List.length (getNeighbors dp points k)))%float
                    then (rest ++ getNeighbors dp points k)%list else rest).
      assert (Hrest1 : forall j, In j rest1 -> (j < n)%nat).
      { intros j Hj. subst rest1.
        destruct (minPoints dp <=? _)%float; [|auto].
        apply in_app_or in Hj as [Hj | Hj]; [auto | now apply getNeighbors_lt in Hj]. }
      assert (Hlen1 : (List.length rest1 <= List.length rest + n)%nat).
      { subst rest1. destruct (minPoints dp <=? _)%float; [|lia].
        rewrite length_app. pose proof (getNeighbors_length k). fold n in H. lia. }
      assert (Hvis1 : forall j, In j (k :: visited) -> (j < n)%nat)
        by (intros j [<- | Hj]; auto).
      assert (Hnoise1 : forall j, In j noise -> In j (k :: visited))
        by (intros j Hj; right; auto).
      assert (Hcl1 : forall j, In j (cluster ++ [k])%list ->
                In j (k :: visited) /\ ~ In j noise).
      { intros j Hj. apply in_app_or in Hj as [Hj | [<- | []]].
        - destruct (Hcl j Hj). split; [right|]; assumption.
        - split; [left; reflexivity | assumption]. }
      pose proof (unvisited_cons_lt n visited k Hk Ev) as Hdec.
      destruct (IH rest1 (cluster ++ [k])%list (k :: visited) noise
                  Hrest1 Hvis1 Hnoise1 Hcl1)
        as (c' & v' & E & H1 & H2 & H3 & H4 & H5).
      { cbn [List.length] in Hfuel. fold n. nia. }
      exists c', v'. split; [exact E|]. repeat split; auto.
      * intros j Hj. apply H1. right. assumption.
      * intros j Hj. apply H2. apply in_or_app. left. assumption.
      * apply H4; assumption.
      * apply H4; assumption.
      * intros j Hj. destruct (H5 j Hj) as [[<- | Hv] | Hc]; auto.
        right. apply H2. apply in_or_app. right. left. reflexivity.
Qed.

End ClusterFacts.

Section DbscanFacts.
Import Js Detect Clusters.
Variable dp : detectionParams.
Variable points : list point.

(** One iteration of [dbscan] returns, keeps the invariant, forgets no
    visited point and leaves its own index visited. *)
Lemma dbscan_step_spec (st : dbstate) (index : nat) :
  dbscan_inv (List.length points) st ->
  (index < List.length points)%nat ->
  exists st',
    dbscan_step dp points (Some st) index = Some st'
    /\ dbscan_inv (List.length points) st'
    /\ (forall k, In k (visited st) -> In k (visited st'))
    /\ In index (visited st').
Proof.
  intros (Inoise & Icl & Ivis & Ilt) Hindex.
  set (n := List.length points) in *.
  cbn [dbscan_step].
  destruct (has (visited st) index) eqn:Ev.
  - exists st. apply has_true_iff in Ev.
    split; [reflexivity|]. split; [|split; [auto | exact Ev]].
    exact (conj Inoise (conj Icl (conj Ivis Ilt))).
  - assert (Hnv : ~ In index (visited st)) by (now apply has_false_iff).
    destruct (num_of_nat (List.length (getNeighbors dp points index)) <? minPoints dp)%float.
    + (* too few neighbours: noise *)
      eexists. split; [reflexivity|]. cbn [clusters visited noise].
      split; [|split; [intros k Hk; right; assumption | left; reflexivity]].
      unfold dbscan_inv. cbn [clusters visited noise].
      split; [|split; [|split]].
      * intros k [<- | Hk]; [left; reflexivity | right; auto].
      * intros c k Hc Hk. destruct (Icl c k Hc Hk) as [Hv Hn].
        split; [right; assumption|].
        intros [<- | Hin]; [apply Hnv; assumption | apply Hn; assumption].
      * intros k [<- | Hk]; [left; left; reflexivity|].
        destruct (Ivis k Hk) as [Hn | Hc]; [left; right; assumption | right; assumption].
      * intros k [<- | Hk]; auto.
    + (* a new cluster *)
      destruct (expandCluster_spec dp points (expand_fuel points)
                  (getNeighbors dp points index) [index] (index :: visited st) (noise st))
        as (c' & v' & E & H1 & H2 & H3 & H4 & H5).
      * intros k Hk. now apply getNeighbors_lt in Hk.
      * intros k [<- | Hk]; auto.
      * intros k Hk. right. auto.
      * intros k [<- | []]. split; [left; reflexivity|].
        intros Hin. apply Hnv. auto.
      * pose proof (getNeighbors_length dp points index) as Hlen.
        pose proof (unvisited_cons_lt n (visited st) index Hindex Ev) as Hdec.
        pose proof (unvisited_le n (visited st)) as Hle.
        unfold expand_fuel. fold n in Hlen |- *. nia.
      * rewrite E. eexists. split; [reflexivity|]. cbn [clusters visited noise].
        split; [|split; [intros k Hk; apply H1; right; assumption
                        | apply H1; left; reflexivity]].
        unfold dbscan_inv. cbn [clusters visited noise].
        split; [|split; [|split]].
        -- intros k Hk. apply H1. right. auto.
        -- intros c k Hc Hk. apply in_app_or in Hc as [Hc | [<- | []]].
           ++ destruct (Icl c k Hc Hk) as [Hv Hn].
              split; [apply H1; right; assumption | assumption].
           ++ apply H4. assumption.
        -- intros k Hk. destruct (H5 k Hk) as [[<- | Hv] | Hc].
           ++ right. exists c'. split; [apply in_or_app; right; left; reflexivity|].
              apply H2. left. reflexivity.
           ++ destruct (Ivis k Hv) as [Hn | (c & Hc & Hkc)]; [left; assumption|].
              right. exists c. split; [apply in_or_app; left|]; assumption.
           ++ right. exists c'. split; [apply in_or_app; right; left; reflexivity|].
              assumption.
        -- exact H3.
Qed.

Lemma dbscan_fold_spec (indices : list nat) :
  forall st,
    dbscan_inv (List.length points) st ->
    (forall i, In i indices -> (i < List.length points)%nat) ->
    exists st',
      fold_left (dbscan_step dp points) indices (Some st) = Some st'
      /\ dbscan_inv (List.length points) st'
      /\ (forall k, In k (visited st) -> In k (visited st'))
      /\ (forall i, In i indices -> In i (visited st')).
Proof.
  induction indices as [|index rest IH]; intros st Hinv Hlt.
  - exists st. split; [reflexivity|]. split; [exact Hinv|].
    split; [auto | intros i []].
  - cbn [fold_left].
    destruct (dbscan_step_spec st index Hinv (Hlt index (or_introl eq_refl)))
      as (st1 & E1 & Hinv1 & Hmono1 & Hin1).
    rewrite E1.
    destruct (IH st1 Hinv1 (fun i Hi => Hlt i (or_intror Hi)))
      as (st' & E & Hinv' & Hmono & Hall).
    exists st'. split; [exact E|]. split; [exact Hinv'|]. split; [auto|].
    intros i [<- | Hi]; auto.
Qed.

(** [dbscan] always returns: the iteration bound of [expandCluster] is
    never reached. *)
Lemma dbscan_run_total :
  exists st,
    dbscan_run dp points = Some st
    /\ dbscan dp points = clusters st
    /\ dbscan_inv (List.length points) st
    /\ (forall i, (i < List.length points)%nat -> In i (visited st)).
Proof.
  destruct (dbscan_fold_spec (seq 0 (List.length points))
              {| clusters := []; visited := []; noise := [] |})
    as (st & E & Hinv & _ & Hall).
  - unfold dbscan_inv. cbn [clusters visited noise].
    split; [|split; [|split]]; intros; contradiction.
  - intros i Hi. apply in_seq in Hi. lia.
  - exists st. unfold dbscan. fold (dbscan_run dp points).
    assert (Erun : dbscan_run dp points = Some st) by exact E.
    rewrite Erun. split; [reflexivity|]. split; [reflexivity|].
    split; [exact Hinv|].
    intros i Hi. apply Hall. apply in_seq. lia.
Qed.

End DbscanFacts.

Section CoreFacts.
Import Js Detect Clusters Density.
Variable dp : detectionParams.
Variable points : list point.

Lemma getNeighbors_In (index k : nat) :
  In k (getNeighbors dp points index)
  <-> k <> index
      /\ exists p q, nth_error points index = Some p
                     /\ nth_error points k = Some q
                     /\ within_eps dp p q = true.
Proof.
unfold getNeighbors.
destruct (nth_error points index) as [p|].
- rewrite in_map_iff. split.
  + intros [[k' q] [E Hin]]. cbn [fst] in E. subst k'.
    apply filter_In in Hin as [Hin Hf].
    apply in_combine_seq in Hin as [_ Hin]. rewrite Nat.sub_0_r in Hin.
    apply andb_true_iff in Hf as [Hne Hw].
    apply negb_true_iff, Nat.eqb_neq in Hne.
    split; [congruence|]. exists p, q. repeat split; assumption.
  + intros [Hne (p' & q & Hp & Hq & Hw)]. injection Hp as <-.
    exists (k, q). split; [reflexivity|].
    apply filter_In. split.
    * apply in_combine_seq. rewrite Nat.sub_0_r. split; [lia | exact Hq].
    * apply andb_true_iff. split; [|exact Hw].
      apply negb_true_iff, Nat.eqb_neq. congruence.
- split; [intros [] | intros [_ (p & q & Hp & _)]; discriminate].
Qed.











End CoreFacts.

Section MembershipFacts.
Import Detect Density.


End MembershipFacts.



(** ** CircleFitter *)

Section FitFacts.
Import Js Detect.
Local Open Scope float_scope.

Lemma fitCircle_det (points : list point) :
  fitCircle points
  = if (List.length points <? 3)%nat then None
    else if PrimFloat.abs (det points) <? DET_EPSILON then None
    else
      let '(A, B, C, D, E) := normal_equations points in
      let centerX := (D * C - B * E) / det points in
      let centerY := (A * E - B * D) / det points in
      let radius :=
        fold_left
          (fun radius point =>
             let dx := x point - centerX in
             let dy := y point - centerY in
             radius + PrimFloat.sqrt (dx * dx + dy * dy))
          points 0 in
      Some {| center := (centerX, centerY);
              radius := radius / num_of_nat (List.length points) |}.
Proof.
  unfold fitCircle, det.
  destruct (normal_equations points) as [[[[A B] C] D] E].
  reflexivity.
Qed.

End FitFacts.

(** C6 (as stated, refuted).  Three collinear points, on the vertical
    line [x = 1000.1] at [y = 0, 100, 200]: the determinant computed in
    binary64 arithmetic is about -1.1e-4, its absolute value is not below
    the epsilon, and [fitCircle] returns a circle. *)
Lemma fitCircle_collinear_wall_fitted :
  Forall (fun p => x p = Scans.wall_x) Scans.wall_points
  /\ (PrimFloat.abs (Detect.det Scans.wall_points) <? Detect.DET_EPSILON)%float = false
  /\ exists c, Detect.fitCircle Scans.wall_points = Some c.
Proof.
  split; [repeat constructor|].
  split; [vm_compute; reflexivity|].
  eexists. vm_compute. reflexivity.
Qed.

(** C6 (amended).  [fitCircle] returns no circle exactly when the cluster
    has fewer than 3 points or the absolute value of the determinant
    [A*C - B*B], as computed, is below [1e-10]; three collinear points are
    rejected when their computed determinant is that small, as it is
    (exactly 0) for the points (0,0), (1,1), (2,2). *)
Theorem fitCircle_fails_exactly (points : list point) :
  (Detect.fitCircle points = None
   <-> (List.length points < 3)%nat
       \/ (PrimFloat.abs (Detect.det points) <? Detect.DET_EPSILON)%float = true)
  /\ Detect.det Scans.diagonal_points = 0%float
  /\ Detect.fitCircle Scans.diagonal_points = None.
Proof.
  split; [|split; vm_compute; reflexivity].
  rewrite fitCircle_det.
  destruct (Nat.ltb_spec (List.length points) 3) as [Hlt | Hge].
  - split; [intros _; left; exact Hlt | reflexivity].
  - destruct (PrimFloat.abs (Detect.det points) <? Detect.DET_EPSILON)%float eqn:E.
    + split; [intros _; right; reflexivity | reflexivity].
    + destruct (Detect.normal_equations points) as [[[[A B] C] D] E'].
      split; [discriminate|].
      intros [H | H]; [lia | discriminate].
Qed.

(** ** DetectionPipeline *)

Section PipelineFacts.
Import Js Detect.
Local Open Scope float_scope.

(** A cluster contributes a tree only through a fitted circle whose
    radius passed both bounds. *)
Lemma detect_cluster_spec (dp : detectionParams) (points : list point)
    (cluster : list nat) (t : tree) :
  In t (detect_cluster dp points cluster) ->
  exists c,
    fitCircle (cluster_points points cluster) = Some c
    /\ (minPoints dp <=? num_of_nat (List.length cluster)) = true
    /\ (minRadius dp <=? radius c) = true
    /\ (radius c <=? maxRadius dp) = true
    /\ t = {| tree_center := center c;
              tree_radius := radius c;
              diameter := radius c * 2;
              tree_points := cluster_points points cluster |}.
Proof.
  unfold detect_cluster.
  destruct (minPoints dp <=? num_of_nat (List.length cluster)); [|intros []].
  destruct (fitCircle (cluster_points points cluster)) as [c|]; [|intros []].
  destruct (minRadius dp <=? radius c) eqn:Elo; [|intros []].
  destruct (radius c <=? maxRadius dp) eqn:Ehi; [|intros []].
  cbn [andb]. intros [<- | []]. exists c. repeat split; assumption.
Qed.

(** The result list of a run that reaches the clustering. *)
Lemma detectTrees_trees (s : system) :
  scanData s <> [] ->
  (num_of_nat (List.length (validPoints s)) <? minPoints (detection_params s)) = false ->
  trees (detectTrees s)
  = flat_map (detect_cluster (detection_params s) (validPoints s))
      (dbscan (detection_params s) (validPoints s)).
Proof.
  intros Hscan Hcount. unfold detectTrees.
  destruct (scanData s) as [|p rest] eqn:E; [congruence|].
  cbv zeta. rewrite Hcount. reflexivity.
Qed.

(** A passing cluster contributes exactly the tree built from its
    fitted circle. *)
Lemma detect_cluster_accepts (dp : detectionParams) (points : list point)
    (cluster : list nat) (c : circle) :
  (minPoints dp <=? num_of_nat (List.length cluster)) = true ->
  fitCircle (cluster_points points cluster) = Some c ->
  (minRadius dp <=? radius c) = true ->
  (radius c <=? maxRadius dp) = true ->
  detect_cluster dp points cluster
  = [ {| tree_center := center c;
         tree_radius := radius c;
         diameter := radius c * 2;
         tree_points := cluster_points points cluster |} ].
Proof.
intros Hn Hfit Hlo Hhi. unfold detect_cluster.
rewrite Hn, Hfit, Hlo, Hhi. reflexivity.
Qed.

(** The two guards of [detectTrees] leave the system as it is. *)
Lemma detectTrees_guard (s : system) :
  scanData s = []
  \/ (num_of_nat (List.length (validPoints s)) <? minPoints (detection_params s)) = true ->
  detectTrees s = s.
Proof.
intros H. unfold detectTrees. destruct (scanData s) as [|p rest]; [reflexivity|].
destruct H as [H | H]; [discriminate|]. cbv zeta. rewrite H. reflexivity.
Qed.

(** The trees of a run that reaches the clustering: one for each cluster
    that passes the three tests, and no other. *)
Lemma detectTrees_trees_iff (s : system) (t : tree) :
  scanData s <> [] ->
  (num_of_nat (List.length (validPoints s)) <? minPoints (detection_params s)) = false ->
  In t (trees (detectTrees s))
  <-> exists cluster c,
        In cluster (dbscan (detection_params s) (validPoints s))
        /\ (minPoints (detection_params s) <=? num_of_nat (List.length cluster)) = true
        /\ fitCircle (cluster_points (validPoints s) cluster) = Some c
        /\ (minRadius (detection_params s) <=? radius c) = true
        /\ (radius c <=? maxRadius (detection_params s)) = true
        /\ t = {| tree_center := center c;
                  tree_radius := radius c;
                  diameter := radius c * 2;
                  tree_points := cluster_points (validPoints s) cluster |}.
Proof.
intros Hscan Hcount. rewrite (detectTrees_trees s Hscan Hcount), in_flat_map. split.
- intros [cluster [Hin Ht]].
  apply detect_cluster_spec in Ht as (c & Hfit & Hn & Hlo & Hhi & ->).
  exists cluster, c. repeat split; assumption.
- intros (cluster & c & Hin & Hn & Hfit & Hlo & Hhi & ->).
  exists cluster. split; [exact Hin|].
  rewrite (detect_cluster_accepts _ _ _ c Hn Hfit Hlo Hhi). left. reflexivity.
Qed.

End PipelineFacts.

(** C4 (as stated, refuted).  After a trunk was detected, a scan with
    three valid points (fewer than [minPoints = 5]) is processed: the
    result list still holds the detection of the earlier run. *)
Lemma detectTrees_keeps_earlier_detections :
  List.length (Detect.validPoints Scans.sparse_system) = 3%nat
  /\ Detect.minPoints (Detect.detection_params Scans.sparse_system) = 5%float
  /\ Detect.trees (Detect.detectTrees Scans.sparse_system)
     = Detect.trees (Detect.detectTrees Scans.trunk_system)
  /\ List.length (Detect.trees (Detect.detectTrees Scans.sparse_system)) = 1%nat
  /\ Detect.trees (Detect.detectTrees Scans.sparse_system) <> [].
Proof.
  repeat split; try (vm_compute; reflexivity).
  vm_compute. discriminate.
Qed.

(** C4 (amended).  When the count of the samples left by the range filter
    is below [minPoints], [detectTrees] returns without error and leaves
    the system, hence its result list, as it was: the list is not
    cleared, and it is empty only if it was empty before. *)
Theorem detectTrees_insufficient_unchanged (s : Detect.system) :
  (Js.num_of_nat (List.length (Detect.validPoints s))
   <? Detect.minPoints (Detect.detection_params s))%float = true ->
  Detect.detectTrees s = s
  /\ Detect.trees (Detect.detectTrees s) = Detect.trees s.
Proof.
  intros H.
  assert (E : Detect.detectTrees s = s).
  { unfold Detect.detectTrees. destruct (Detect.scanData s); [reflexivity|].
    cbv zeta. rewrite H. reflexivity. }
  rewrite E. split; reflexivity.
Qed.

Lemma detectTrees_insufficient_unchanged_witness :
  Detect.detectTrees Scans.sparse_system = Scans.sparse_system
  /\ Detect.trees (Detect.detectTrees Scans.sparse_system)
     = Detect.trees Scans.sparse_system.
Proof.
  apply (detectTrees_insufficient_unchanged Scans.sparse_system).
  vm_compute. reflexivity.
Defined.

(** C9 (as stated, refuted).  After the trunk of radius 65 mm was detected
    the upper bound is lowered to 60 mm and a scan with three valid
    points is processed: the run returns at its guard, and the list still
    holds the tree of radius 65 mm, above [maxRadius]. *)
Lemma detectTrees_stale_radius_out_of_bounds :
  Detect.maxRadius (Detect.detection_params Scans.narrowed_system) = 60%float
  /\ exists t,
       Detect.trees (Detect.detectTrees Scans.narrowed_system) = [t]
       /\ (64 <? Detect.tree_radius t)%float = true
       /\ (Detect.tree_radius t
           <=? Detect.maxRadius (Detect.detection_params Scans.narrowed_system))%float
          = false.
Proof.
split; [reflexivity|].
eexists. split; [vm_compute; reflexivity|]. split; vm_compute; reflexivity.
Qed.

(** C9 (amended).  A run that reaches the clustering (the scan is not
    empty and the range filter leaves at least [minPoints] samples)
    replaces the result list by the trees of the clusters, in cluster
    order, and every tree in it has [minRadius <= radius <= maxRadius];
    a cluster whose fitted circle has a radius outside these bounds
    contributes no tree (the run goes on, nothing is raised), and one
    that passes the three tests contributes its tree.  A run that returns
    at one of the two guards leaves the system, hence the list, as it
    was. *)
Theorem detectTrees_radius_in_bounds (s : Detect.system) :
  let dp := Detect.detection_params s in
  let points := Detect.validPoints s in
  let below := (Js.num_of_nat (List.length points) <? Detect.minPoints dp)%float in
  (Detect.scanData s = [] \/ below = true -> Detect.detectTrees s = s)
  /\ (Detect.scanData s <> [] -> below = false ->
        Detect.trees (Detect.detectTrees s)
        = flat_map (Detect.detect_cluster dp points) (Detect.dbscan dp points)
        /\ Forall
             (fun t =>
                (Detect.minRadius dp <=? Detect.tree_radius t)%float = true
                /\ (Detect.tree_radius t <=? Detect.maxRadius dp)%float = true)
             (Detect.trees (Detect.detectTrees s)))
  /\ (forall cluster c,
        Detect.fitCircle (Detect.cluster_points points cluster) = Some c ->
        ((Detect.minRadius dp <=? Detect.radius c)
         && (Detect.radius c <=? Detect.maxRadius dp))%float = false ->
        Detect.detect_cluster dp points cluster = [])
  /\ (forall cluster c,
        (Detect.minPoints dp <=? Js.num_of_nat (List.length cluster))%float = true ->
        Detect.fitCircle (Detect.cluster_points points cluster) = Some c ->
        ((Detect.minRadius dp <=? Detect.radius c)
         && (Detect.radius c <=? Detect.maxRadius dp))%float = true ->
        exists t, Detect.detect_cluster dp points cluster = [t]
                  /\ Detect.tree_radius t = Detect.radius c).
Proof.
  intros dp points below.
  split; [apply detectTrees_guard|]. split; [|split].
  - intros Hscan Hcount.
    pose proof (detectTrees_trees s Hscan Hcount) as E. fold dp points in E.
    split; [exact E|].
    rewrite E. apply Forall_forall. intros t Ht.
    apply in_flat_map in Ht as [cluster [_ Ht]].
    apply detect_cluster_spec in Ht as (c & _ & _ & Hlo & Hhi & ->).
    cbn [Detect.tree_radius]. split; assumption.
  - intros cluster c Hfit Hout. unfold Detect.detect_cluster.
    rewrite Hfit, Hout.
    destruct (Detect.minPoints dp <=? Js.num_of_nat (List.length cluster))%float;
      reflexivity.
  - intros cluster c Hn Hfit Hin. apply andb_true_iff in Hin as [Hlo Hhi].
    eexists. split; [apply (detect_cluster_accepts dp points cluster c Hn Hfit Hlo Hhi)|].
    reflexivity.
Qed.

Lemma detectTrees_radius_in_bounds_witness :
  (exists t,
     Detect.trees (Detect.detectTrees Scans.trunk_system) = [t]
     /\ (Detect.minRadius Scans.default_detection_params <=? Detect.tree_radius t)%float
        = true
     /\ (Detect.tree_radius t <=? Detect.maxRadius Scans.default_detection_params)%float
        = true)
  /\ Forall
       (fun t =>
          (Detect.minRadius Scans.default_detection_params
           <=? Detect.tree_radius t)%float = true
          /\ (Detect.tree_radius t
              <=? Detect.maxRadius Scans.default_detection_params)%float = true)
       (Detect.trees (Detect.detectTrees Scans.trunk_system)).
Proof.
  split.
  - eexists. split; [vm_compute; reflexivity|]. split; vm_compute; reflexivity.
  - apply (detectTrees_radius_in_bounds Scans.trunk_system).
    + discriminate.
    + vm_compute. reflexivity.
Defined.

(** C10.  The trees a run produces are exactly those of the clusters that
    pass the three tests (at least [minPoints] entries, a fitted circle,
    a radius within the bounds), each built from the circle fitted to
    its cluster with [radius = circle.radius] and
    [diameter = circle.radius * 2]; so every tree produced has
    [diameter = radius * 2], and every passing cluster produces one.  A
    run that returns at a guard produces nothing and leaves the list. *)
Theorem detectTrees_diameter (s : Detect.system) :
  let dp := Detect.detection_params s in
  let points := Detect.validPoints s in
  let below := (Js.num_of_nat (List.length points) <? Detect.minPoints dp)%float in
  (Detect.scanData s = [] \/ below = true -> Detect.detectTrees s = s)
  /\ (Detect.scanData s <> [] -> below = false ->
        (forall t,
           In t (Detect.trees (Detect.detectTrees s))
           <-> exists cluster c,
                 In cluster (Detect.dbscan dp points)
                 /\ (Detect.minPoints dp <=? Js.num_of_nat (List.length cluster))%float
                    = true
                 /\ Detect.fitCircle (Detect.cluster_points points cluster) = Some c
                 /\ (Detect.minRadius dp <=? Detect.radius c)%float = true
                 /\ (Detect.radius c <=? Detect.maxRadius dp)%float = true
                 /\ t = {| Detect.tree_center := Detect.center c;
                           Detect.tree_radius := Detect.radius c;
                           Detect.diameter := (Detect.radius c * 2)%float;
                           Detect.tree_points := Detect.cluster_points points cluster |})
        /\ Forall
             (fun t => Detect.diameter t = (Detect.tree_radius t * 2)%float)
             (Detect.trees (Detect.detectTrees s))).
Proof.
  intros dp points below.
  split; [apply detectTrees_guard|].
  intros Hscan Hcount.
  split; [intros t; apply (detectTrees_trees_iff s t Hscan Hcount)|].
  apply Forall_forall. intros t Ht.
  apply (detectTrees_trees_iff s t Hscan Hcount) in Ht
    as (cluster & c & _ & _ & _ & _ & _ & ->).
  reflexivity.
Qed.

Lemma detectTrees_diameter_witness :
  (exists t,
     Detect.trees (Detect.detectTrees Scans.trunk_system) = [t]
     /\ Detect.diameter t = (Detect.tree_radius t * 2)%float
     /\ (64 <? Detect.tree_radius t)%float = true
     /\ (Detect.tree_radius t <? 66)%float = true
     /\ (128 <? Detect.diameter t)%float = true
     /\ (Detect.diameter t <? 132)%float = true)
  /\ Forall
       (fun t => Detect.diameter t = (Detect.tree_radius t * 2)%float)
       (Detect.trees (Detect.detectTrees Scans.trunk_system)).
Proof.
  split.
  - eexists. split; [vm_compute; reflexivity|].
    repeat split; vm_compute; reflexivity.
  - apply (detectTrees_diameter Scans.trunk_system).
    + discriminate.
    + vm_compute. reflexivity.
Defined.

(** * Further properties of the code *)

(** ** HeightPacketDecoder: framing, record count and fields *)

Section PacketFacts.
Import Stp23l.

Lemma length_parse_loop (n : nat) (data : list Z) :
  forall i,
    (List.length data <= i + n * DATA_INTERVAL)%nat ->
    List.length (parse_loop n data i) = ((List.length data - i - 1) / 15)%nat.
Proof.
  unfold DATA_INTERVAL.
  induction n as [|n IH]; intros i H; cbn [parse_loop]; unfold DATA_INTERVAL.
  - symmetry. apply Nat.div_small. lia.
  - destruct (Nat.ltb_spec i (List.length data)) as [Hi | Hi].
    + rewrite length_app, IH by lia.
      destruct (Nat.ltb_spec (i + 15) (List.length data)) as [Hr | Hr]; cbn [List.length].
      * replace (List.length data - i - 1)%nat
          with (1 * 15 + (List.length data - (i + 15) - 1))%nat by lia.
        rewrite Nat.div_add_l by lia. lia.
      * replace (List.length data - (i + 15) - 1)%nat with 0%nat by lia.
        rewrite (Nat.div_small (List.length data - i - 1)) by lia.
        reflexivity.
    + symmetry. apply Nat.div_small. lia.
Qed.

Lemma nth_error_parse_loop (n : nat) (data : list Z) :
  forall i k m,
    nth_error (parse_loop n data i) k = Some m ->
    m = parse_record data (i + 15 * k)
    /\ (i + 15 * k + 15 < List.length data)%nat.
Proof.
  induction n as [|n IH]; intros i k m H; cbn [parse_loop] in H.
  - destruct k; discriminate.
  - destruct (Nat.ltb_spec i (List.length data)) as [Hi | Hi];
      [|destruct k; discriminate].
    unfold DATA_INTERVAL in H.
    destruct (Nat.ltb_spec (i + 15) (List.length data)) as [Hr | Hr].
    + cbn [app] in H. destruct k as [|k]; cbn [nth_error] in H.
      * injection H as <-. rewrite Nat.mul_0_r, Nat.add_0_r. split; [reflexivity | lia].
      * apply IH in H as [-> Hlt]. split; [f_equal; lia | lia].
    + cbn [app] in H. apply IH in H as [_ Hlt]. lia.
Qed.

Lemma lor_mul_pow2 (m k b : Z) :
  0 <= k -> 0 <= b < 2 ^ k -> Z.lor (m * 2 ^ k) b = m * 2 ^ k + b.
Proof.
  intros Hk Hb.
  assert (Hland : Z.land (m * 2 ^ k) b = 0).
  { apply Z.bits_inj'. intros n Hn.
    rewrite Z.land_spec, Z.bits_0.
    destruct (Z.lt_ge_cases n k) as [Hlt | Hge].
    - rewrite Z.mul_pow2_bits_low by lia. reflexivity.
    - assert (Z.testbit b n = false) as ->; [|apply andb_false_r].
      destruct (Z.eq_dec b 0) as [-> | Hz]; [apply Z.bits_0|].
      apply Z.bits_above_log2; [lia|].
      apply Z.log2_lt_pow2; [lia|].
      apply Z.lt_le_trans with (2 ^ k); [lia|].
      apply Z.pow_le_mono_r; lia. }
  rewrite <- (Z.lxor_lor _ _ Hland), <- (Z.add_nocarry_lxor _ _ Hland).
  reflexivity.
Qed.

Lemma toInt32_range (z : Z) : - 2 ^ 31 <= toInt32 z < 2 ^ 31.
Proof.
  unfold toInt32.
  pose proof (Z.mod_pos_bound (z + 2 ^ 31) (2 ^ 32) ltac:(lia)). lia.
Qed.

Lemma shl_byte (b n : Z) :
  is_byte b -> 0 <= n <= 16 -> shl b n = b * 2 ^ n.
Proof.
  unfold is_byte. intros Hb Hn. unfold shl.
  rewrite Z.mod_small by lia.
  rewrite (toInt32_small b) by lia.
  rewrite Z.shiftl_mul_pow2 by lia.
  apply toInt32_small.
  assert (2 ^ n <= 2 ^ 16) by (apply Z.pow_le_mono_r; lia).
  assert (0 < 2 ^ n) by (apply Z.pow_pos_nonneg; lia).
  nia.
Qed.

Lemma shl_byte_24 (b : Z) :
  is_byte b -> shl b 24 = (b - (if b <? 128 then 0 else 256)) * 2 ^ 24.
Proof.
  unfold is_byte. intros Hb. unfold shl.
  change (24 mod 32) with 24.
  rewrite (toInt32_small b) by lia.
  rewrite Z.shiftl_mul_pow2 by lia.
  unfold toInt32.
  destruct (Z.ltb_spec b 128) as [Hlt | Hge].
  - rewrite Z.mod_small by lia. lia.
  - replace (b * 2 ^ 24 + 2 ^ 31) with ((b * 2 ^ 24 - 2 ^ 31) + 1 * 2 ^ 32) by lia.
    rewrite Z.mod_add by lia.
    rewrite Z.mod_small by lia. lia.
Qed.

(** Four bytes packed with [(b1 << 24) | (b2 << 16) | (b3 << 8) | b4]. *)
Lemma bor_packed32 (b1 b2 b3 b4 : Z) :
  is_byte b1 -> is_byte b2 -> is_byte b3 -> is_byte b4 ->
  bor (bor (bor (shl b1 24) (shl b2 16)) (shl b3 8)) b4
  = Sensor.packed32 b1 b2 b3 b4.
Proof.
  intros H1 H2 H3 H4.
  rewrite (shl_byte_24 b1 H1), (shl_byte b2 16 H2), (shl_byte b3 8 H3) by lia.
  unfold is_byte in *. unfold Sensor.packed32.
  set (m := b1 - (if b1 <? 128 then 0 else 256)).
  assert (Hm : -128 <= m < 128) by (subst m; destruct (Z.ltb_spec b1 128); lia).
  assert (E1 : bor (m * 2 ^ 24) (b2 * 2 ^ 16) = (m * 2 ^ 8 + b2) * 2 ^ 16).
  { unfold bor. rewrite !toInt32_small by lia.
    rewrite lor_mul_pow2 by lia. lia. }
  rewrite E1.
  assert (E2 : bor ((m * 2 ^ 8 + b2) * 2 ^ 16) (b3 * 2 ^ 8)
               = ((m * 2 ^ 8 + b2) * 2 ^ 8 + b3) * 2 ^ 8).
  { unfold bor. rewrite !toInt32_small by lia.
    rewrite lor_mul_pow2 by lia. lia. }
  rewrite E2.
  unfold bor. rewrite !toInt32_small by lia.
  rewrite lor_mul_pow2 by lia.
  subst m. destruct (b1 <? 128); lia.
Qed.

Lemma parseData_some (data : list Z) (ms : list measurement) :
  parseData data = Some ms ->
  nth_error data 0 = Some START_BYTE
  /\ ms = parse_loop (List.length data) data DATA_START_INDEX.
Proof.
  unfold parseData. destruct data as [|b rest]; [discriminate|].
  destruct (Z.eqb_spec b START_BYTE) as [-> | Hne]; [|discriminate].
  intros H. injection H as <-. split; reflexivity.
Qed.

Lemma parseData_null_helper (data : list Z) :
  nth_error data 0 <> Some START_BYTE -> parseData data = None.
Proof.
  unfold parseData. destruct data as [|b rest]; cbn [nth_error]; [reflexivity|].
  destruct (Z.eqb_spec b START_BYTE) as [-> | Hne]; [congruence | reflexivity].
Qed.

End PacketFacts.

(** X1.  [parseData] returns [null] exactly when the buffer is empty or
    its first byte is not 0xAA; the length and the rest of the content
    play no part in the rejection. *)
Theorem parseData_null_iff (data : list Z) :
  Stp23l.parseData data = None <-> nth_error data 0 <> Some Stp23l.START_BYTE.
Proof.
  unfold Stp23l.parseData. destruct data as [|b rest]; cbn [nth_error].
  - split; [discriminate | reflexivity].
  - destruct (Z.eqb_spec b Stp23l.START_BYTE) as [-> | Hne].
    + split; [discriminate | congruence].
    + split; [congruence | reflexivity].
Qed.

(** X2.  A buffer that starts with 0xAA yields [(length - 11) / 15]
    measurements (12 for a 195-byte packet): the loop keeps a record only
    if at least one byte follows it, so a buffer that ends with its last
    record loses that record. *)
Theorem parseData_count (data : list Z) (ms : list Stp23l.measurement) :
  Stp23l.parseData data = Some ms ->
  List.length ms = ((List.length data - 11) / 15)%nat
  /\ (List.length data = Stp23l.PACKET_SIZE -> List.length ms = 12%nat)
  /\ (forall k, List.length data = (10 + 15 * k)%nat -> List.length ms = (k - 1)%nat).
Proof.
  intros H. apply parseData_some in H as [_ ->].
  rewrite length_parse_loop
    by (unfold Stp23l.DATA_START_INDEX, Stp23l.DATA_INTERVAL; lia).
  unfold Stp23l.DATA_START_INDEX.
  replace (List.length data - 10 - 1)%nat with (List.length data - 11)%nat by lia.
  split; [reflexivity|]. split.
  - intros ->. reflexivity.
  - intros k ->. destruct k as [|k]; [reflexivity|].
    replace (10 + 15 * S k - 11)%nat with (k * 15 + 14)%nat by lia.
    rewrite Nat.div_add_l by lia. cbn. lia.
Qed.

Lemma parseData_count_witness :
  List.length (Stp23l.parse_loop 195 Inputs.packet_00_64 10) = ((List.length Inputs.packet_00_64 - 11) / 15)%nat
  /\ (List.length Inputs.packet_00_64 = Stp23l.PACKET_SIZE ->
      List.length (Stp23l.parse_loop 195 Inputs.packet_00_64 10) = 12%nat)
  /\ (forall k, List.length Inputs.packet_00_64 = (10 + 15 * k)%nat ->
      List.length (Stp23l.parse_loop 195 Inputs.packet_00_64 10) = (k - 1)%nat).
Proof.
  apply (parseData_count Inputs.packet_00_64). reflexivity.
Defined.

(** X3.  In a buffer of bytes, the measurement of index [k] is read from
    the 15 bytes at offset [10 + 15 * k]: distance, noise and reference
    time of flight low byte first, confidence as one byte, peak intensity
    and integration count from four bytes, most significant first, as a
    signed 32-bit value (negative when the first byte is 0x80 or more). *)
Theorem parseData_record_fields (packet : list Z) (ms : list Stp23l.measurement)
    (k : nat) (m : Stp23l.measurement) :
  Forall Stp23l.is_byte packet ->
  Stp23l.parseData packet = Some ms ->
  nth_error ms k = Some m ->
  let B j := nth (10 + 15 * k + j) packet 0 in
  (10 + 15 * k + 15 < List.length packet)%nat
  /\ Stp23l.distance m = B 0%nat + 256 * B 1%nat
  /\ Stp23l.noise m = B 2%nat + 256 * B 3%nat
  /\ Stp23l.peak m = Sensor.packed32 (B 4%nat) (B 5%nat) (B 6%nat) (B 7%nat)
  /\ Stp23l.confidence m = B 8%nat
  /\ Stp23l.intg m = Sensor.packed32 (B 9%nat) (B 10%nat) (B 11%nat) (B 12%nat)
  /\ Stp23l.reftof m = B 13%nat + 256 * B 14%nat
  /\ 0 <= Stp23l.distance m <= 65535
  /\ - 2 ^ 31 <= Stp23l.peak m < 2 ^ 31.
Proof.
  intros Hbytes Hparse Hnth B.
  apply parseData_some in Hparse as [_ ->].
  apply nth_error_parse_loop in Hnth as [-> Hlt].
  unfold Stp23l.DATA_START_INDEX in *.
  assert (Hb : forall j, (j < 15)%nat -> Stp23l.is_byte (B j)).
  { intros j Hj. rewrite Forall_forall in Hbytes. apply Hbytes.
    apply nth_In. lia. }
  split; [exact Hlt|].
  unfold Stp23l.parse_record.
  cbn [Stp23l.distance Stp23l.noise Stp23l.peak Stp23l.confidence
       Stp23l.intg Stp23l.reftof].
  unfold Stp23l.byte_at, Stp23l.fields.DISTANCE_HIGH, Stp23l.fields.DISTANCE_LOW,
    Stp23l.fields.NOISE_HIGH, Stp23l.fields.NOISE_LOW, Stp23l.fields.PEAK_1,
    Stp23l.fields.PEAK_2, Stp23l.fields.PEAK_3, Stp23l.fields.PEAK_4,
    Stp23l.fields.CONFIDENCE, Stp23l.fields.INTG_1, Stp23l.fields.INTG_2,
    Stp23l.fields.INTG_3, Stp23l.fields.INTG_4, Stp23l.fields.REFTOF_HIGH,
    Stp23l.fields.REFTOF_LOW.
  fold (B 0%nat) (B 1%nat) (B 2%nat) (B 3%nat) (B 4%nat) (B 5%nat) (B 6%nat)
    (B 7%nat) (B 8%nat) (B 9%nat) (B 10%nat) (B 11%nat) (B 12%nat) (B 13%nat)
    (B 14%nat).
  rewrite !bor_shl_bytes by (apply Hb; lia).
  rewrite !bor_packed32 by (apply Hb; lia).
  pose proof (Hb 0%nat ltac:(lia)) as H0. pose proof (Hb 1%nat ltac:(lia)) as H1.
  pose proof (Hb 4%nat ltac:(lia)) as H4. pose proof (Hb 5%nat ltac:(lia)) as H5.
  pose proof (Hb 6%nat ltac:(lia)) as H6. pose proof (Hb 7%nat ltac:(lia)) as H7.
  unfold Stp23l.is_byte in *. unfold Sensor.packed32.
  repeat split; try lia; destruct (B 4%nat <? 128) eqn:E;
    try (apply Z.ltb_lt in E); try (apply Z.ltb_ge in E); lia.
Qed.

Lemma parseData_record_fields_witness :
  let B j := nth (10 + 15 * 0 + j) Inputs.packet_00_64 0 in
  let m := Stp23l.parse_record Inputs.packet_00_64 10 in
  (10 + 15 * 0 + 15 < List.length Inputs.packet_00_64)%nat
  /\ Stp23l.distance m = B 0%nat + 256 * B 1%nat
  /\ Stp23l.noise m = B 2%nat + 256 * B 3%nat
  /\ Stp23l.peak m = Sensor.packed32 (B 4%nat) (B 5%nat) (B 6%nat) (B 7%nat)
  /\ Stp23l.confidence m = B 8%nat
  /\ Stp23l.intg m = Sensor.packed32 (B 9%nat) (B 10%nat) (B 11%nat) (B 12%nat)
  /\ Stp23l.reftof m = B 13%nat + 256 * B 14%nat
  /\ 0 <= Stp23l.distance m <= 65535
  /\ - 2 ^ 31 <= Stp23l.peak m < 2 ^ 31.
Proof.
  apply (parseData_record_fields Inputs.packet_00_64
           (Stp23l.parse_loop 195 Inputs.packet_00_64 10) 0).
  - vm_compute.
    repeat (apply Forall_cons; [split; [discriminate | reflexivity] |]).
    apply Forall_nil.
  - reflexivity.
  - reflexivity.
Defined.

(** ** The height sensor *)

Section SensorFacts.
Import Stp23l Sensor.

(** A buffer of at least 26 bytes that starts with 0xAA has a first
    measurement. *)
Lemma parseData_first (data : list Z) :
  (26 <= List.length data)%nat ->
  nth_error data 0 = Some START_BYTE ->
  exists rest,
    parseData data = Some (parse_record data DATA_START_INDEX :: rest).
Proof.
  intros Hlen Hstart. unfold parseData.
  destruct data as [|b data']; [discriminate|].
  cbn [nth_error] in Hstart. injection Hstart as ->.
  rewrite Z.eqb_refl.
  set (data := START_BYTE :: data') in *.
  assert (H : forall n, (0 < n)%nat ->
            parse_loop n data DATA_START_INDEX
            = parse_record data DATA_START_INDEX
              :: parse_loop (Nat.pred n) data (DATA_START_INDEX + DATA_INTERVAL)).
  { intros [|n] Hn; [lia|]. apply parse_loop_step.
    unfold DATA_START_INDEX, DATA_INTERVAL. lia. }
  rewrite H by lia. eexists. reflexivity.
Qed.

Lemma performMeasurement_consistent (s : sensor) (data : option (list Z)) (now : Z) :
  consistent s -> consistent (performMeasurement s data now).
Proof.
  intros [Hc Hh]. unfold performMeasurement.
  destruct (port s); cbn [negb]; [|split; assumption].
  destruct data as [d|]; [|split; assumption].
  destruct (_ <=? _)%nat; [|split; assumption].
  destruct (parseData d) as [[|m rest]|]; try (split; assumption).
  unfold consistent. cbn [measurementCount heightHistory currentHeight].
  rewrite length_app, map_app. cbn [map List.length]. rewrite last_last.
  cbn [height]. split; [lia | reflexivity].
Qed.

Lemma step_consistent (s : sensor) (op : operation) :
  consistent s -> consistent (step s op).
Proof.
  intros H. destruct op as [data now | | open]; cbn [step].
  - apply performMeasurement_consistent. exact H.
  - split; reflexivity.
  - exact H.
Qed.

End SensorFacts.

(** X4.  [performMeasurement] takes a packet exactly when the port is
    set, the buffer read has at least 195 bytes and starts with 0xAA: it
    then appends one reading made of the first record (distance, noise,
    confidence) and the current time, sets the current height to that
    distance and adds one to the count.  In every other case (no port,
    nothing read, short buffer, wrong start byte) the sensor is left as
    it was. *)
Theorem performMeasurement_accepts (s : Sensor.sensor) (now : Z) :
  (forall data,
      Sensor.port s = true ->
      (Stp23l.PACKET_SIZE <= List.length data)%nat ->
      nth_error data 0 = Some Stp23l.START_BYTE ->
      let m := Stp23l.parse_record data Stp23l.DATA_START_INDEX in
      Sensor.performMeasurement s (Some data) now
      = {| Sensor.port := true;
           Sensor.currentHeight := Stp23l.distance m;
           Sensor.heightHistory :=
             Sensor.heightHistory s
             ++ [ {| Sensor.height := Stp23l.distance m;
                     Sensor.timestamp := now;
                     Sensor.reading_noise := Stp23l.noise m;
                     Sensor.reading_confidence := Stp23l.confidence m |} ];
           Sensor.measurementCount := S (Sensor.measurementCount s) |})
  /\ (forall data,
        Sensor.port s = false
        \/ data = None
        \/ (exists d, data = Some d
                      /\ ((List.length d < Stp23l.PACKET_SIZE)%nat
                          \/ nth_error d 0 <> Some Stp23l.START_BYTE)) ->
        Sensor.performMeasurement s data now = s).
Proof.
  split.
  - intros data Hport Hlen Hstart m. unfold Sensor.performMeasurement.
    rewrite Hport. cbn [negb].
    apply Nat.leb_le in Hlen. rewrite Hlen.
    apply Nat.leb_le in Hlen. unfold Stp23l.PACKET_SIZE in Hlen.
    destruct (parseData_first data ltac:(lia) Hstart) as [rest ->].
    reflexivity.
  - intros data H. unfold Sensor.performMeasurement.
    destruct (Sensor.port s); cbn [negb]; [|reflexivity].
    destruct H as [H | [-> | (d & -> & [Hlen | Hstart])]];
      [discriminate | reflexivity | |].
    + apply Nat.leb_gt in Hlen. rewrite Hlen. reflexivity.
    + destruct (_ <=? _)%nat; [|reflexivity].
      apply parseData_null_helper in Hstart. rewrite Hstart. reflexivity.
Qed.

(** X5.  After any sequence of measurements, data resets and port
    changes starting from the constructor, the measurement count equals
    the number of readings in the history, and the current height is the
    height of the latest reading, or 0 when the history is empty.  (The
    sensor's own methods are meant: [LidarSystem.generateTestHeightData]
    pushes test readings into the history from outside.) *)
Theorem sensor_history_consistent (ops : list Sensor.operation) :
  Sensor.measurementCount (Sensor.run ops)
  = List.length (Sensor.heightHistory (Sensor.run ops))
  /\ Sensor.currentHeight (Sensor.run ops)
     = last (map Sensor.height (Sensor.heightHistory (Sensor.run ops))) 0.
Proof.
  unfold Sensor.run.
  assert (H : forall s, Sensor.consistent s ->
                        Sensor.consistent (fold_left Sensor.step ops s)).
  { induction ops as [|op ops IH]; intros s Hs; cbn [fold_left]; [exact Hs|].
    apply IH. apply step_consistent. exact Hs. }
  apply (H Sensor.constructor). split; reflexivity.
Qed.

(** ** RangeValueCodec: values and group length *)

Section CodecFacts.
Import Js Scip.

(** The value of a group of valid digits, in both encodings. *)
Lemma decodeSCIP_value (c0 c1 c2 : char) :
  valid_digit c0 -> valid_digit c1 -> valid_digit c2 ->
  decodeSCIP [c0; c1; c2]
  = Ok (JInt (4096 * digsub c0 + 64 * digsub c1 + digsub c2)).
Proof.
  intros H0 H1 H2.
  assert (D : forall c r acc, valid_digit c ->
            digits2 (digbin c ++ r)%string acc = digits2 r (64 * acc + digsub c))
    by (intros c r acc H; apply (digbin_valid c r acc H)).
  assert (D' : forall c acc, valid_digit c ->
            digits2 (digbin c) acc = 64 * acc + digsub c).
  { intros c acc H. rewrite <- (append_empty_r (digbin c)), (D c EmptyString acc H).
    reflexivity. }
  unfold decodeSCIP. cbn [nth_error is_zero_char at_index bind].
  destruct (Z.eqb_spec c0 48) as [-> | E0]; cbn [andb].
  - change (digsub 48) with 0.
    destruct ((c1 =? 48) && (c2 =? 48)) eqn:E12.
    + apply andb_true_iff in E12 as [E1 E2].
      apply Z.eqb_eq in E1, E2. subst c1 c2. reflexivity.
    + destruct (digbin_valid c1 (digbin c2) 0 H1) as [S1 _].
      rewrite (parseInt2_digits _ S1), (D c1 _ 0 H1), (D' c2 _ H2).
      do 2 f_equal; lia.
  - destruct (digbin_valid c0 (digbin c1 ++ digbin c2)%string 0 H0) as [S0 _].
    rewrite (parseInt2_digits _ S0), (D c0 _ 0 H0), (D c1 _ _ H1), (D' c2 _ H2).
    do 2 f_equal; lia.
Qed.

(** A group of three characters is always decoded to an integer. *)
Lemma decodeSCIP_three (c0 c1 c2 : char) :
  exists z, decodeSCIP [c0; c1; c2] = Ok (JInt z).
Proof.
  unfold decodeSCIP. cbn [nth_error is_zero_char at_index bind].
  destruct ((c0 =? 48) && (c1 =? 48) && (c2 =? 48)); [eexists; reflexivity|].
  destruct (c0 =? 48).
  - destruct (parseInt2_digbin c1 (digbin c2)) as [z ->]. eauto.
  - destruct (parseInt2_digbin c0 (digbin c1 ++ digbin c2)%string) as [z ->]. eauto.
Qed.

End CodecFacts.

(** X6.  On groups of valid digits [decodeSCIP] is the base-64 positional
    value [4096 * d0 + 64 * d1 + d2], in the two-character and in the
    three-character encoding alike; hence two such groups with the same
    value are the same group, and every value from 0 to 262143 is the
    value of a group of valid digits. *)
Theorem decodeSCIP_one_to_one :
  (forall c0 c1 c2 c0' c1' c2',
      Scip.valid_digit c0 -> Scip.valid_digit c1 -> Scip.valid_digit c2 ->
      Scip.valid_digit c0' -> Scip.valid_digit c1' -> Scip.valid_digit c2' ->
      Scip.decodeSCIP [c0; c1; c2] = Scip.decodeSCIP [c0'; c1'; c2'] ->
      c0 = c0' /\ c1 = c1' /\ c2 = c2')
  /\ (forall v, 0 <= v <= 262143 ->
        exists c0 c1 c2,
          Scip.valid_digit c0 /\ Scip.valid_digit c1 /\ Scip.valid_digit c2
          /\ Scip.decodeSCIP [c0; c1; c2] = Js.Ok (Js.JInt v)).
Proof.
  split.
  - intros c0 c1 c2 c0' c1' c2' H0 H1 H2 H0' H1' H2' E.
    rewrite !decodeSCIP_value in E by assumption.
    assert (E' : 4096 * Scip.digsub c0 + 64 * Scip.digsub c1 + Scip.digsub c2
                 = 4096 * Scip.digsub c0' + 64 * Scip.digsub c1' + Scip.digsub c2')
      by congruence.
    clear E.
    unfold Scip.valid_digit, Scip.digsub, Scip.dig in *.
    assert (E0 : c0 = c0') by lia.
    assert (E1 : c1 = c1') by lia.
    repeat split; lia.
  - intros v Hv.
    exists (48 + v / 4096), (48 + (v / 64) mod 64), (48 + v mod 64).
    assert (A0 : Scip.valid_digit (48 + v / 4096))
      by (unfold Scip.valid_digit, Scip.digsub, Scip.dig;
          Z.to_euclidean_division_equations; lia).
    assert (A1 : Scip.valid_digit (48 + (v / 64) mod 64))
      by (unfold Scip.valid_digit, Scip.digsub, Scip.dig;
          Z.to_euclidean_division_equations; lia).
    assert (A2 : Scip.valid_digit (48 + v mod 64))
      by (unfold Scip.valid_digit, Scip.digsub, Scip.dig;
          Z.to_euclidean_division_equations; lia).
    split; [exact A0|]. split; [exact A1|]. split; [exact A2|].
    rewrite decodeSCIP_value by assumption.
    do 2 f_equal; unfold Scip.digsub, Scip.dig;
      Z.to_euclidean_division_equations; lia.
Qed.

(** X7.  [decodeSCIP] reads exactly the first three elements of its
    argument: on a group of fewer than three characters it throws (a
    method call on [undefined]), and elements after the third never
    change the result. *)
Theorem decodeSCIP_group_length :
  (forall group, (List.length group < 3)%nat ->
     Scip.decodeSCIP group = Js.TypeError)
  /\ (forall c0 c1 c2 rest,
        Scip.decodeSCIP (c0 :: c1 :: c2 :: rest) = Scip.decodeSCIP [c0; c1; c2]).
Proof.
  split.
  - intros [|c0 [|c1 [|c2 rest]]] H; cbn [List.length] in H; try lia;
      unfold Scip.decodeSCIP;
      cbn [nth_error Scip.is_zero_char Scip.at_index Js.bind andb].
    + reflexivity.
    + rewrite andb_false_r. cbn [andb]. destruct (c0 =? 48); reflexivity.
    + rewrite andb_false_r. destruct (c0 =? 48); reflexivity.
  - intros c0 c1 c2 rest. reflexivity.
Qed.

(** ** ScanFrameDecoder: markers, blocks, groups and outcome *)

Section FrameFacts.
Import Js Scan.

Lemma substring_0 {A} (b : nat) (s : list A) : substring 0 b s = firstn b s.
Proof.
  unfold substring. rewrite Nat.max_0_l, Nat.min_0_l, Nat.sub_0_r. reflexivity.
Qed.

Lemma findStartIndices_from_In (data : list char) (c : char) :
  forall i k,
    In k (findStartIndices_from i data c)
    <-> (i <= k)%nat /\ nth_error data (k - i) = Some c.
Proof.
  induction data as [|d rest IH]; intros i k; cbn [findStartIndices_from].
  - split; [intros [] | intros [_ H]; destruct (k - i)%nat; discriminate].
  - rewrite in_app_iff, IH. split.
    + intros [H | [Hle H]].
      * destruct (Z.eqb_spec d c) as [-> | Hne]; [|destruct H].
        destruct H as [<- | []]. rewrite Nat.sub_diag. split; [lia | reflexivity].
      * split; [lia|]. replace (k - i)%nat with (S (k - S i)) by lia. exact H.
    + intros [Hle H]. destruct (Nat.eq_dec k i) as [-> | Hne].
      * left. rewrite Nat.sub_diag in H. cbn [nth_error] in H. injection H as ->.
        rewrite Z.eqb_refl. left. reflexivity.
      * right. split; [lia|].
        replace (k - i)%nat with (S (k - S i)) in H by lia. exact H.
Qed.

Lemma findStartIndices_from_sorted (data : list char) (c : char) :
  forall i, StronglySorted lt (findStartIndices_from i data c).
Proof.
  induction data as [|d rest IH]; intros i; cbn [findStartIndices_from].
  - constructor.
  - destruct (d =? c); cbn [app]; [|apply IH].
    constructor; [apply IH|].
    apply Forall_forall. intros k Hk.
    apply findStartIndices_from_In in Hk. lia.
Qed.

Lemma findStartIndices_from_length (data : list char) (c : char) :
  forall i, List.length (findStartIndices_from i data c) = count_occ Z.eq_dec data c.
Proof.
  induction data as [|d rest IH]; intros i; cbn [findStartIndices_from count_occ];
    [reflexivity|].
  rewrite length_app, IH.
  destruct (Z.eqb_spec d c) as [-> | Hne]; destruct (Z.eq_dec _ c); try congruence;
    reflexivity.
Qed.

(** The retained part of a complete block has 63 characters. *)
Lemma length_block (rangedata : list char) (j : nat) :
  List.length
    (if (64 + 66 * j <=? List.length rangedata)%nat
     then substring (1 + 66 * j) (64 + 66 * j) rangedata else [])
  = if (64 + 66 * j <=? List.length rangedata)%nat then 63%nat else 0%nat.
Proof.
  destruct (Nat.leb_spec (64 + 66 * j) (List.length rangedata)) as [H | H];
    [|reflexivity].
  unfold substring. rewrite length_firstn, length_skipn. lia.
Qed.

Lemma length_blocks (rangedata : list char) (n : nat) :
  List.length
    (flat_map
       (fun j =>
          if (64 + 66 * j <=? List.length rangedata)%nat
          then substring (1 + 66 * j) (64 + 66 * j) rangedata else [])
       (seq 0 n))
  = (63 * Nat.min n ((List.length rangedata + 2) / 66))%nat.
Proof.
  induction n as [|n IH]; [reflexivity|].
  rewrite seq_S, flat_map_app, length_app, IH. cbn [flat_map].
  change (0 + n)%nat with n.
  rewrite app_nil_r, length_block.
  pose proof (Nat.div_mod_eq (List.length rangedata + 2) 66) as Hd.
  pose proof (Nat.mod_upper_bound (List.length rangedata + 2) 66 ltac:(lia)) as Hm.
  destruct (Nat.leb_spec (64 + 66 * n) (List.length rangedata)) as [H | H]; lia.
Qed.

Lemma reorganizeRangeData_length_eq (rangedata : list char) :
  List.length (reorganizeRangeData rangedata)
  = (63 * Nat.min 32 ((List.length rangedata + 2) / 66))%nat.
Proof. exact (length_blocks rangedata 32). Qed.

End FrameFacts.

Section DecodeFacts.
Import Js Scan.
Variables cos sin : float -> float.

Lemma firstn_succ_nth {A} (d : A) (s : list A) :
  forall k, (k < List.length s)%nat ->
    firstn (S k) s = (firstn k s ++ [nth k s d])%list.
Proof.
  induction s as [|a s IH]; intros k Hk; cbn [List.length] in Hk; [lia|].
  destruct k as [|k]; [reflexivity|].
  cbn [firstn nth app]. f_equal. apply IH. lia.
Qed.

Lemma concat_groups (s : list char) :
  forall n, (3 * n <= List.length s)%nat ->
    List.concat
      (map (fun i => let start := (i * 3)%nat in
                     [nth start s 0; nth (start + 1) s 0; nth (start + 2) s 0])
           (seq 0 n))
    = firstn (3 * n) s.
Proof.
  induction n as [|n IH]; intros Hn; [reflexivity|].
  assert (E : firstn (3 * S n) s
              = (firstn (3 * n) s
                 ++ [nth (n * 3) s 0; nth (n * 3 + 1) s 0; nth (n * 3 + 2) s 0])%list).
  { replace (3 * S n)%nat with (S (S (S (3 * n)))) by lia.
    rewrite (firstn_succ_nth (A:=char) 0 s (S (S (3 * n)))) by lia.
    rewrite (firstn_succ_nth (A:=char) 0 s (S (3 * n))) by lia.
    rewrite (firstn_succ_nth (A:=char) 0 s (3 * n)) by lia.
    rewrite <- !app_assoc. cbn [app].
    replace (n * 3)%nat with (3 * n)%nat by lia.
    replace (3 * n + 1)%nat with (S (3 * n)) by lia.
    replace (3 * n + 2)%nat with (S (S (3 * n))) by lia.
    reflexivity. }
  rewrite E, seq_S, map_app, concat_app, IH by lia.
  cbn [map List.concat]. rewrite app_nil_r. reflexivity.
Qed.

(** Groups of three characters are always decoded. *)
Lemma decodeDistanceData_triples (groups : list (list char)) :
  Forall (fun g => List.length g = 3%nat) groups ->
  exists ranges, decodeDistanceData groups = Ok ranges.
Proof.
  induction 1 as [|g rest Hg _ [ranges IH]]; [eexists; reflexivity|].
  destruct g as [|c0 [|c1 [|c2 [|c3 g]]]]; try discriminate Hg.
  cbn [decodeDistanceData].
  destruct (decodeSCIP_three c0 c1 c2) as [z ->].
  rewrite IH. eexists. reflexivity.
Qed.

Lemma encodeDistanceData_triples (s : list char) :
  Forall (fun g => List.length g = 3%nat) (encodeDistanceData s).
Proof.
  unfold encodeDistanceData. apply Forall_forall. intros g Hg.
  apply in_map_iff in Hg as [i [<- _]]. reflexivity.
Qed.

(** The outcome of [processLidarData] on a buffer that is long enough,
    in terms of the marker positions in its first 2134 characters. *)
Lemma processLidarData_long (rawData : list char) :
  (EXPECTED_DATA_SIZE <= List.length rawData)%nat ->
  let data := firstn EXPECTED_DATA_SIZE rawData in
  let startIndices := findStartIndices data (nth 12 data 0) in
  processLidarData cos sin rawData
  = if (List.length startIndices <? 3)%nat
    then Error "fewer than 3 start markers"
    else
      (ranges <- decodeDistanceData
                   (encodeDistanceData
                      (reorganizeRangeData
                         (substring (nth 2 startIndices 0%nat + 1)
                            (List.length data - 1) data))) ;;
       Ok (convertToCoordinates cos sin ranges)).
Proof.
  intros Hlen. cbv zeta. unfold processLidarData.
  apply Nat.ltb_ge in Hlen. rewrite Hlen. rewrite substring_0. reflexivity.
Qed.

End DecodeFacts.

(** X8.  [findStartIndices] returns exactly the positions at which the
    character occurs, each once, in increasing order; their number is the
    number of occurrences. *)
Theorem findStartIndices_positions (data : list Js.char) (c : Js.char) :
  (forall k, In k (Scan.findStartIndices data c) <-> nth_error data k = Some c)
  /\ StronglySorted lt (Scan.findStartIndices data c)
  /\ List.length (Scan.findStartIndices data c) = count_occ Z.eq_dec data c.
Proof.
  unfold Scan.findStartIndices. split; [|split].
  - intros k. rewrite findStartIndices_from_In, Nat.sub_0_r.
    split; [intros [_ H]; exact H | intros H; split; [lia | exact H]].
  - apply findStartIndices_from_sorted.
  - apply findStartIndices_from_length.
Qed.

(** X9.  [encodeDistanceData] cuts its text into consecutive groups of
    exactly three characters: put end to end the groups are the text
    without its last [length mod 3] characters. *)
Theorem encodeDistanceData_partition (s : list Js.char) :
  Forall (fun g => List.length g = 3%nat) (Scan.encodeDistanceData s)
  /\ List.length (Scan.encodeDistanceData s) = (List.length s / 3)%nat
  /\ (List.concat (Scan.encodeDistanceData s)
      ++ skipn (List.length s - List.length s mod 3) s)%list = s.
Proof.
  split; [apply encodeDistanceData_triples|].
  split; [apply encodeDistanceData_length|].
  unfold Scan.encodeDistanceData.
  pose proof (Nat.div_mod_eq (List.length s) 3) as Hd.
  rewrite concat_groups by lia.
  replace (List.length s - List.length s mod 3)%nat
    with (3 * (List.length s / 3))%nat by lia.
  apply firstn_skipn.
Qed.

(** X10.  [processLidarData] fails on a buffer of fewer than 2134
    characters; on a longer one it fails exactly when the character at
    index 12 occurs fewer than three times among the first 2134
    characters; in every other case it returns a scan: no character of
    the payload can make the decoding fail. *)
Theorem processLidarData_outcome (cos sin : float -> float) (rawData : list Js.char) :
  let data := firstn Scan.EXPECTED_DATA_SIZE rawData in
  let occurrences := count_occ Z.eq_dec data (nth 12 data 0) in
  ((List.length rawData < Scan.EXPECTED_DATA_SIZE)%nat ->
   Scan.processLidarData cos sin rawData
   = Js.Error "packet shorter than EXPECTED_DATA_SIZE")
  /\ ((Scan.EXPECTED_DATA_SIZE <= List.length rawData)%nat ->
      (occurrences < 3)%nat ->
      Scan.processLidarData cos sin rawData = Js.Error "fewer than 3 start markers")
  /\ ((Scan.EXPECTED_DATA_SIZE <= List.length rawData)%nat ->
      (3 <= occurrences)%nat ->
      exists scan, Scan.processLidarData cos sin rawData = Js.Ok scan).
Proof.
  cbv zeta. split; [|split].
  - intros H. unfold Scan.processLidarData.
    apply Nat.ltb_lt in H. rewrite H. reflexivity.
  - intros Hlen Hocc. rewrite processLidarData_long by exact Hlen. cbv zeta.
    unfold Scan.findStartIndices. rewrite findStartIndices_from_length.
    apply Nat.ltb_lt in Hocc. rewrite Hocc. reflexivity.
  - intros Hlen Hocc. rewrite processLidarData_long by exact Hlen. cbv zeta.
    unfold Scan.findStartIndices at 1. rewrite findStartIndices_from_length.
    apply Nat.ltb_ge in Hocc. rewrite Hocc.
    match goal with
    | |- context [Scan.decodeDistanceData (Scan.encodeDistanceData ?s)] =>
        destruct (decodeDistanceData_triples _ (encodeDistanceData_triples s))
          as [ranges ->]
    end.
    eexists. reflexivity.
Qed.

Section PrefixFacts.
Import Js Scan.
Variables cos sin : float -> float.

(** What follows the first 2134 characters is never read. *)
Lemma processLidarData_prefix (rawData extra : list char) :
  (EXPECTED_DATA_SIZE <= List.length rawData)%nat ->
  processLidarData cos sin (rawData ++ extra) = processLidarData cos sin rawData.
Proof.
  intros Hlen.
  rewrite (processLidarData_long cos sin (rawData ++ extra))
    by (rewrite length_app; lia).
  rewrite (processLidarData_long cos sin rawData) by exact Hlen.
  cbv zeta. rewrite firstn_app.
  replace (EXPECTED_DATA_SIZE - List.length rawData)%nat with 0%nat by lia.
  cbn [firstn]. rewrite app_nil_r. reflexivity.
Qed.

Lemma read_loop_spec (chunks : list (list char)) :
  forall data,
    (List.length data < EXPECTED_DATA_SIZE)%nat ->
    let all := (data ++ List.concat chunks)%list in
    let read := Serial.read_loop chunks data in
    (exists rest, all = (read ++ rest)%list)
    /\ ((EXPECTED_DATA_SIZE <= List.length all)%nat ->
        (EXPECTED_DATA_SIZE <= List.length read)%nat)
    /\ ((List.length all < EXPECTED_DATA_SIZE)%nat -> read = all).
Proof.
  induction chunks as [|chunk rest IH]; intros data Hdata; cbv zeta;
    cbn [Serial.read_loop List.concat].
  - rewrite app_nil_r. split; [exists []; now rewrite app_nil_r|].
    split; [lia | reflexivity].
  - destruct (Nat.leb_spec EXPECTED_DATA_SIZE (List.length (data ++ chunk)))
      as [Hfull | Hshort].
    + split; [exists (List.concat rest); now rewrite app_assoc|].
      split; [intros _; exact Hfull|].
      rewrite !length_app in *. lia.
    + assert ((Serial.MAX_BUFFER_SIZE <? List.length (data ++ chunk))%nat = false) as ->.
      { apply Nat.ltb_ge. unfold Serial.MAX_BUFFER_SIZE, EXPECTED_DATA_SIZE in *. lia. }
      rewrite app_assoc. apply (IH (data ++ chunk)%list Hshort).
Qed.

End PrefixFacts.

(** X11.  The number of samples of a decoded scan is fixed by the position
    [third] of the third marker alone: it is
    [21 * min 32 ((2134 - third) / 66)], that is 21 samples for each
    complete block of 66 characters between the marker and the last
    character, 32 blocks at most; the scan has its 672 samples exactly
    when the third marker is at index 22 or before. *)
Theorem processLidarData_sample_count (cos sin : float -> float)
    (rawData : list Js.char) (scan : list point) :
  Scan.processLidarData cos sin rawData = Js.Ok scan ->
  let data := firstn Scan.EXPECTED_DATA_SIZE rawData in
  let third := nth 2 (Scan.findStartIndices data (nth 12 data 0)) 0%nat in
  List.length scan = (21 * Nat.min 32 ((Scan.EXPECTED_DATA_SIZE - third) / 66))%nat
  /\ (List.length scan = 672%nat <-> (third <= 22)%nat).
Proof.
  intros Hscan. cbv zeta.
  assert (Hlen : (Scan.EXPECTED_DATA_SIZE <= List.length rawData)%nat).
  { destruct (Nat.ltb_spec (List.length rawData) Scan.EXPECTED_DATA_SIZE) as [H | H];
      [|exact H].
    unfold Scan.processLidarData in Hscan.
    apply Nat.ltb_lt in H. rewrite H in Hscan. discriminate. }
  rewrite (processLidarData_long cos sin rawData Hlen) in Hscan. cbv zeta in Hscan.
  set (data := firstn Scan.EXPECTED_DATA_SIZE rawData) in *.
  set (startIndices := Scan.findStartIndices data (nth 12 data 0)) in *.
  assert (Hdata : List.length data = Scan.EXPECTED_DATA_SIZE)
    by (subst data; rewrite length_firstn; lia).
  destruct (Nat.ltb_spec (List.length startIndices) 3) as [H3 | H3];
    [discriminate|].
  set (third := nth 2 startIndices 0%nat) in *.
  assert (Hthird : (third < Scan.EXPECTED_DATA_SIZE)%nat).
  { assert (Hin : In third startIndices) by (apply nth_In; lia).
    apply findStartIndices_from_In in Hin as [_ Hin].
    rewrite <- Hdata. apply nth_error_Some. rewrite Nat.sub_0_r in Hin. congruence. }
  match type of Hscan with
  | context [Scan.decodeDistanceData ?g] =>
      destruct (Scan.decodeDistanceData g) as [ranges| |msg] eqn:E;
        cbn [Js.bind] in Hscan; try discriminate
  end.
  injection Hscan as <-.
  unfold Scan.convertToCoordinates. rewrite length_convert_from.
  rewrite (decodeDistanceData_length _ _ E), encodeDistanceData_length.
  rewrite reorganizeRangeData_length_eq.
  assert (Hsub : ((List.length
                     (Js.substring (third + 1) (List.length data - 1) data) + 2) / 66
                  = (Scan.EXPECTED_DATA_SIZE - third) / 66)%nat).
  { unfold Js.substring. rewrite length_firstn, length_skipn, Hdata.
    unfold Scan.EXPECTED_DATA_SIZE in *.
    destruct (Nat.le_gt_cases (third + 1) 2133) as [Hle | Hgt].
    - f_equal. lia.
    - replace third with 2133%nat by lia.
      rewrite !Nat.div_small by lia. reflexivity. }
  rewrite Hsub.
  unfold Scan.EXPECTED_DATA_SIZE in *.
  pose proof (Nat.div_mod_eq (2134 - third) 66) as Hd.
  pose proof (Nat.mod_upper_bound (2134 - third) 66 ltac:(lia)) as Hm.
  set (blocks := Nat.min 32 ((2134 - third) / 66)).
  assert (Hblocks : (63 * blocks / 3 = 21 * blocks)%nat).
  { replace (63 * blocks)%nat with (21 * blocks * 3)%nat by lia.
    apply Nat.div_mul. lia. }
  rewrite Hblocks. subst blocks.
  split; [reflexivity | lia].
Qed.

Lemma processLidarData_sample_count_witness :
  let data := firstn Scan.EXPECTED_DATA_SIZE Inputs.synthetic_frame in
  let third := nth 2 (Scan.findStartIndices data (nth 12 data 0)) 0%nat in
  List.length Scans.synthetic_scan
  = (21 * Nat.min 32 ((Scan.EXPECTED_DATA_SIZE - third) / 66))%nat
  /\ (List.length Scans.synthetic_scan = 672%nat <-> (third <= 22)%nat).
Proof.
  apply (processLidarData_sample_count Scans.cos_series Scans.sin_series
           Inputs.synthetic_frame Scans.synthetic_scan).
  vm_compute. reflexivity.
Defined.

(** X12.  Only the first 2134 characters of the buffer are decoded:
    whatever follows them changes nothing. *)
Theorem processLidarData_ignores_tail (cos sin : float -> float)
    (rawData extra : list Js.char) :
  (Scan.EXPECTED_DATA_SIZE <= List.length rawData)%nat ->
  Scan.processLidarData cos sin (rawData ++ extra)
  = Scan.processLidarData cos sin rawData.
Proof. apply processLidarData_prefix. Qed.

Lemma processLidarData_ignores_tail_witness :
  Scan.processLidarData Scans.cos_series Scans.sin_series
    (Inputs.synthetic_frame ++ Js.codes "GD0044072500")
  = Scan.processLidarData Scans.cos_series Scans.sin_series Inputs.synthetic_frame.
Proof.
  apply (processLidarData_ignores_tail Scans.cos_series Scans.sin_series
           Inputs.synthetic_frame (Js.codes "GD0044072500")).
  apply Nat.leb_le. vm_compute. reflexivity.
Defined.

(** X13.  [getRealLidarData] does not depend on how the response arrives
    in chunks: when the stream delivers fewer than 2134 characters in all
    it throws, otherwise it returns what [processLidarData] returns on the
    whole text delivered (reading stops at the first chunk that completes
    2134 characters; the test of [MAX_BUFFER_SIZE] never ends the loop by
    itself).  Without a port it throws at once. *)
Theorem getRealLidarData_chunks (cos sin : float -> float)
    (chunks : list (list Js.char)) :
  Serial.getRealLidarData cos sin true chunks
  = (if (List.length (List.concat chunks) <? Scan.EXPECTED_DATA_SIZE)%nat
     then Js.Error "incomplete packet"
     else Scan.processLidarData cos sin (List.concat chunks))
  /\ Serial.getRealLidarData cos sin false chunks = Js.Error "lidar not connected".
Proof.
  split; [|reflexivity].
  unfold Serial.getRealLidarData, Serial.readSerialData. cbn [negb].
  destruct (read_loop_spec chunks [])
    as ([rest Hall] & Hfull & Hshort).
  { unfold Scan.EXPECTED_DATA_SIZE. cbn [List.length]. lia. }
  cbv zeta in *. cbn [app] in *.
  destruct (Nat.ltb_spec (List.length (List.concat chunks)) Scan.EXPECTED_DATA_SIZE)
    as [Hs | Hf].
  - rewrite (Hshort Hs). apply Nat.ltb_lt in Hs. rewrite Hs. reflexivity.
  - specialize (Hfull Hf).
    assert ((List.length (Serial.read_loop chunks []) <? Scan.EXPECTED_DATA_SIZE)%nat
            = false) as -> by (apply Nat.ltb_ge; exact Hfull).
    rewrite Hall. symmetry. apply processLidarData_prefix. exact Hfull.
Qed.

(** ** SpatialClusterer: neighbourhoods, seeds and noise *)

(** X14.  For an index that is a position of [points],
    [getNeighbors(points, index)] lists, in increasing order and each
    once, exactly the positions other than [index] whose point is within
    [eps] of the point at [index]; a point is never its own neighbour. *)
Theorem getNeighbors_positions (dp : Detect.detectionParams) (points : list point)
    (index : nat) :
  (index < List.length points)%nat ->
  exists p,
    nth_error points index = Some p
    /\ (forall k, In k (Detect.getNeighbors dp points index)
                  <-> k <> index
                      /\ exists q, nth_error points k = Some q
                                   /\ Detect.within_eps dp p q = true)
    /\ StronglySorted lt (Detect.getNeighbors dp points index)
    /\ ~ In index (Detect.getNeighbors dp points index).
Proof.
  intros Hindex.
  destruct (nth_error points index) as [p|] eqn:Ep;
    [|apply nth_error_None in Ep; lia].
  exists p. split; [reflexivity|].
  assert (Hiff : forall k, In k (Detect.getNeighbors dp points index)
                  <-> k <> index
                      /\ exists q, nth_error points k = Some q
                                   /\ Detect.within_eps dp p q = true).
  { intros k. rewrite getNeighbors_In. rewrite Ep. split.
    - intros [Hne (p' & q & Hp & Hq & Hw)]. injection Hp as <-.
      split; [exact Hne|]. exists q. split; assumption.
    - intros [Hne (q & Hq & Hw)]. split; [exact Hne|]. exists p, q. auto. }
  split; [exact Hiff|]. split.
  - unfold Detect.getNeighbors. rewrite Ep. apply sorted_filter_combine_seq.
  - intros Hin. apply Hiff in Hin as [Hne _]. congruence.
Qed.

Lemma getNeighbors_positions_witness :
  Detect.getNeighbors Scans.bridge_params Scans.bridge_points 1 = [0; 4]%nat
  /\ exists p,
    nth_error Scans.bridge_points 1 = Some p
    /\ (forall k, In k (Detect.getNeighbors Scans.bridge_params Scans.bridge_points 1)
                  <-> k <> 1%nat
                      /\ exists q, nth_error Scans.bridge_points k = Some q
                                   /\ Detect.within_eps Scans.bridge_params p q = true)
    /\ StronglySorted lt (Detect.getNeighbors Scans.bridge_params Scans.bridge_points 1)
    /\ ~ In 1%nat (Detect.getNeighbors Scans.bridge_params Scans.bridge_points 1).
Proof.
  split; [vm_compute; reflexivity|].
  apply (getNeighbors_positions Scans.bridge_params Scans.bridge_points 1).
  vm_compute. lia.
Defined.

Section SeedFacts.
Import Js Detect Density.
Variable dp : detectionParams.
Variable points : list point.

(** [expandCluster] only appends to the cluster, and appends every entry
    of its work list that is not noise. *)
Lemma expandCluster_members (fuel : nat) :
  forall neighbors cluster visited noise cluster' visited',
    expandCluster dp fuel points neighbors cluster visited noise
    = Some (cluster', visited') ->
    (exists tail, cluster' = (cluster ++ tail)%list)
    /\ (forall k, In k neighbors -> ~ In k noise -> In k cluster').
Proof.
  induction fuel as [|fuel IH]; intros neighbors cluster visited noise c' v' H;
    cbn [expandCluster] in H; [discriminate|].
  destruct neighbors as [|k rest].
  - injection H as <- <-. split; [exists []; now rewrite app_nil_r | intros k []].
  - set (cluster1 := if negb (has noise k) then (cluster ++ [k])%list else cluster) in *.
    assert (Hc1 : exists t, cluster1 = (cluster ++ t)%list).
    { subst cluster1. destruct (negb (has noise k));
        [exists [k]; reflexivity | exists []; now rewrite app_nil_r]. }
    assert (Hk : ~ In k noise -> In k cluster1).
    { intros Hn. apply has_false_iff in Hn. subst cluster1. rewrite Hn.
      cbn [negb]. apply in_or_app. right. left. reflexivity. }
    destruct Hc1 as [t Hc1].
    assert (Hgen : forall visited1 rest1,
              (forall j, In j rest -> In j rest1) ->
              expandCluster dp fuel points rest1 cluster1 visited1 noise
              = Some (c', v') ->
              (exists tail, c' = (cluster ++ tail)%list)
              /\ (forall j, In j (k :: rest) -> ~ In j noise -> In j c')).
    { intros visited1 rest1 Hsub E.
      apply IH in E as [[tail ->] Hall].
      split.
      - exists (t ++ tail)%list. rewrite Hc1, app_assoc. reflexivity.
      - intros j [<- | Hj] Hn.
        + apply in_or_app. left. apply Hk. exact Hn.
        + apply Hall; [apply Hsub; exact Hj | exact Hn]. }
    destruct (has visited k); cbn [negb] in H.
    + apply (Hgen visited rest); [auto | exact H].
    + destruct (minPoints dp <=? num_of_nat (List.length (getNeighbors dp points k)))%float.
      * apply (Hgen (k :: visited) (rest ++ getNeighbors dp points k)%list);
          [intros j Hj; apply in_or_app; left; exact Hj | exact H].
      * apply (Hgen (k :: visited) rest); [auto | exact H].
Qed.

Lemma dbscan_step_seeded (st st' : dbstate) (index : nat) :
  dbscan_step dp points (Some st) index = Some st' ->
  seeded dp points st -> seeded dp points st'.
Proof.
  intros H [Hcl Hnoise]. cbn [dbscan_step] in H.
  destruct (has (visited st) index); [injection H as <-; split; assumption|].
  destruct (num_of_nat (List.length (getNeighbors dp points index)) <? minPoints dp)%float
    eqn:Etest.
  - injection H as <-. split; cbn [clusters noise].
    + intros c Hc. destruct (Hcl c Hc) as (seed & rest & -> & Hd & Hall).
      exists seed, rest. split; [reflexivity|]. split; [exact Hd|].
      intros k Hk Hn. apply Hall; [exact Hk|].
      intros Hin. apply Hn. right. exact Hin.
    + intros i [<- | Hi]; [|apply Hnoise; exact Hi].
      unfold dense. rewrite Etest. reflexivity.
  - destruct (expandCluster dp (expand_fuel points) points
                (getNeighbors dp points index) [index]
                (index :: visited st) (noise st)) as [[c' v']|] eqn:E;
      [|discriminate].
    injection H as <-. split; cbn [clusters noise]; [|exact Hnoise].
    intros c Hc. apply in_app_or in Hc as [Hc | [<- | []]]; [apply Hcl; exact Hc|].
    apply expandCluster_members in E as [[tail ->] Hall].
    exists index, tail. split; [reflexivity|]. split; [|exact Hall].
    unfold dense. rewrite Etest. reflexivity.
Qed.

Lemma dbscan_fold_none (indices : list nat) :
  fold_left (dbscan_step dp points) indices None = None.
Proof. induction indices as [|i rest IH]; [reflexivity | exact IH]. Qed.

Lemma dbscan_fold_seeded (indices : list nat) :
  forall st st',
    fold_left (dbscan_step dp points) indices (Some st) = Some st' ->
    seeded dp points st -> seeded dp points st'.
Proof.
  induction indices as [|i rest IH]; intros st st' H Hs; cbn [fold_left] in H.
  - injection H as <-. exact Hs.
  - destruct (dbscan_step dp points (Some st) i) as [st1|] eqn:E.
    + apply (IH st1 st' H). apply (dbscan_step_seeded st st1 i E Hs).
    + rewrite dbscan_fold_none in H. discriminate.
Qed.

Lemma dbscan_run_seeded (st : dbstate) :
  dbscan_run dp points = Some st -> seeded dp points st.
Proof.
  intros H. apply (dbscan_fold_seeded _ _ _ H).
  split; cbn [clusters noise]; intros ? [].
Qed.

End SeedFacts.

(** X15.  Every cluster returned by [dbscan] starts with its seed, a
    point for which the test [neighbors.length < minPoints] of [dbscan]
    is false, so that it has at least [minPoints] neighbours whenever
    [minPoints] is not [NaN]; and the cluster holds every neighbour of
    the seed that is not classified as noise. *)
Theorem dbscan_clusters_seeded (dp : Detect.detectionParams) (points : list point)
    (st : Detect.dbstate) (c : list nat) :
  Detect.dbscan_run dp points = Some st ->
  In c (Detect.clusters st) ->
  exists seed rest,
    c = seed :: rest
    /\ (Js.num_of_nat (List.length (Detect.getNeighbors dp points seed))
        <? Detect.minPoints dp)%float = false
    /\ (PrimFloat.is_nan (Detect.minPoints dp) = false ->
        (Detect.minPoints dp
         <=? Js.num_of_nat (List.length (Detect.getNeighbors dp points seed)))%float
        = true)
    /\ forall k, In k (Detect.getNeighbors dp points seed) ->
                 ~ In k (Detect.noise st) -> In k c.
Proof.
  intros Hrun Hc.
  destruct (dbscan_run_seeded dp points st Hrun) as [Hcl _].
  destruct (Hcl c Hc) as (seed & rest & -> & Hd & Hall).
  unfold Density.dense in Hd. apply negb_true_iff in Hd.
  exists seed, rest. split; [reflexivity|]. split; [exact Hd|]. split; [|exact Hall].
  intros Hnan. apply ltb_leb; [exact Hnan | apply num_of_nat_not_nan | exact Hd].
Qed.

Lemma dbscan_clusters_seeded_witness :
  exists seed rest,
    [4; 1; 5; 6]%nat = seed :: rest
    /\ (Js.num_of_nat
          (List.length (Detect.getNeighbors Scans.bridge_params Scans.bridge_points seed))
        <? Detect.minPoints Scans.bridge_params)%float = false
    /\ (PrimFloat.is_nan (Detect.minPoints Scans.bridge_params) = false ->
        (Detect.minPoints Scans.bridge_params
         <=? Js.num_of_nat
               (List.length
                  (Detect.getNeighbors Scans.bridge_params Scans.bridge_points seed)))%float
        = true)
    /\ forall k, In k (Detect.getNeighbors Scans.bridge_params Scans.bridge_points seed) ->
                 ~ In k [] -> In k [4; 1; 5; 6]%nat.
Proof.
  apply (dbscan_clusters_seeded Scans.bridge_params Scans.bridge_points
           {| Detect.clusters := [[0; 1; 2; 3]; [4; 1; 5; 6]]%nat;
              Detect.visited := [6; 5; 4; 3; 2; 1; 0]%nat;
              Detect.noise := [] |}).
  - vm_compute. reflexivity.
  - right. left. reflexivity.
Defined.

(** X16.  A point classified as noise has fewer than [minPoints]
    neighbours: the test [neighbors.length < minPoints] is true for it.
    [dbscan] returns no cluster exactly when that test is true for every
    point, and every point is then noise.  When [minPoints] is not [NaN],
    this is exactly when no point has at least [minPoints] neighbours. *)
Theorem dbscan_no_cluster_iff (dp : Detect.detectionParams) (points : list point) :
  let below i :=
    (Js.num_of_nat (List.length (Detect.getNeighbors dp points i))
     <? Detect.minPoints dp)%float in
  let at_least i :=
    (Detect.minPoints dp
     <=? Js.num_of_nat (List.length (Detect.getNeighbors dp points i)))%float in
  exists st,
    Detect.dbscan_run dp points = Some st
    /\ (forall i, In i (Detect.noise st) -> below i = true)
    /\ (Detect.dbscan dp points = []
        <-> forall i, (i < List.length points)%nat -> below i = true)
    /\ (Detect.dbscan dp points = [] ->
        forall i, (i < List.length points)%nat -> In i (Detect.noise st))
    /\ (PrimFloat.is_nan (Detect.minPoints dp) = false ->
        (Detect.dbscan dp points = []
         <-> forall i, (i < List.length points)%nat -> at_least i = false)).
Proof.
  intros below at_least.
  destruct (dbscan_run_total dp points)
    as (st & Erun & Edb & (Inoise & Icl & Ivis & Ilt) & Hall).
  destruct (dbscan_run_seeded dp points st Erun) as [Hseed Hsparse].
  assert (Hdense : forall i, Density.dense dp points i = negb (below i)) by reflexivity.
  exists st. split; [exact Erun|].
  assert (Hnoise : forall i, In i (Detect.noise st) -> below i = true).
  { intros i Hi. apply Hsparse in Hi. rewrite Hdense in Hi.
    now apply negb_false_iff in Hi. }
  split; [exact Hnoise|].
  rewrite Edb.
  assert (Hnone : Detect.clusters st = [] ->
                  forall i, (i < List.length points)%nat -> In i (Detect.noise st)).
  { intros Hempty i Hi.
    destruct (Ivis i (Hall i Hi)) as [Hn | (c & Hc & _)]; [exact Hn|].
    rewrite Hempty in Hc. destruct Hc. }
  assert (Hiff : Detect.clusters st = []
                 <-> forall i, (i < List.length points)%nat -> below i = true).
  { split.
    - intros Hempty i Hi. apply Hnoise. apply Hnone; assumption.
    - intros Hno. destruct (Detect.clusters st) as [|c cs] eqn:E; [reflexivity|].
      destruct (Hseed c (or_introl eq_refl)) as (seed & rest & -> & Hd & _).
      assert (Hlt : (seed < List.length points)%nat).
      { apply Ilt. apply (Icl (seed :: rest) seed); left; reflexivity. }
      rewrite Hdense, (Hno seed Hlt) in Hd. discriminate. }
  split; [exact Hiff|]. split; [exact Hnone|].
  intros Hnan. rewrite Hiff.
  assert (Heq : forall i, below i = true <-> at_least i = false).
  { intros i. unfold below, at_least. split.
    - intros Hb. destruct (Detect.minPoints dp <=? _)%float eqn:E; [|reflexivity].
      apply leb_ltb in E. congruence.
    - intros Ha. destruct (_ <? Detect.minPoints dp)%float eqn:E; [reflexivity|].
      apply ltb_leb in E; [congruence | exact Hnan | apply num_of_nat_not_nan]. }
  split; intros H i Hi; apply Heq, H, Hi.
Qed.

(** ** DetectionPipeline: repeated runs and tree members *)

Section TreeFacts.
Import Js Detect.
Local Open Scope float_scope.

Lemma cluster_points_In (points : list point) (cluster : list nat) (p : point) :
  In p (cluster_points points cluster) -> In p points.
Proof.
  unfold cluster_points. intros H.
  apply in_flat_map in H as [k [_ H]].
  destruct (nth_error points k) as [q|] eqn:E; [|destruct H].
  destruct H as [<- | []]. apply (nth_error_In _ _ E).
Qed.

Lemma cluster_points_length (points : list point) (cluster : list nat) :
  (forall k, In k cluster -> (k < List.length points)%nat) ->
  List.length (cluster_points points cluster) = List.length cluster.
Proof.
  unfold cluster_points.
  induction cluster as [|k rest IH]; intros H; [reflexivity|].
  cbn [flat_map]. rewrite length_app, IH by (intros j Hj; apply H; right; exact Hj).
  destruct (nth_error points k) as [q|] eqn:E; [reflexivity|].
  apply nth_error_None in E. specialize (H k (or_introl eq_refl)). lia.
Qed.

Lemma fitCircle_some_length (points : list point) (c : circle) :
  fitCircle points = Some c -> (3 <= List.length points)%nat.
Proof.
  unfold fitCircle.
  destruct (Nat.ltb_spec (List.length points) 3) as [H | H]; [discriminate|].
  intros _. exact H.
Qed.

Lemma length_flat_map_detect (dp : detectionParams) (points : list point)
    (clusters : list (list nat)) :
  (List.length (flat_map (detect_cluster dp points) clusters)
   <= List.length clusters)%nat.
Proof.
  induction clusters as [|c rest IH]; [reflexivity|].
  cbn [flat_map List.length]. rewrite length_app.
  assert (List.length (detect_cluster dp points c) <= 1)%nat.
  { unfold detect_cluster.
    destruct (minPoints dp <=? _); [|cbn; lia].
    destruct (fitCircle _) as [ci|]; [|cbn; lia].
    destruct (_ && _); cbn; lia. }
  lia.
Qed.

(** The members of the clusters of [dbscan] are positions of its input. *)
Lemma dbscan_members_lt (dp : detectionParams) (points : list point)
    (c : list nat) (k : nat) :
  In c (dbscan dp points) -> In k c -> (k < List.length points)%nat.
Proof.
  destruct (dbscan_run_total dp points)
    as (st & _ & -> & (_ & Icl & _ & Ilt) & _).
  intros Hc Hk. apply Ilt. apply (Icl c k Hc Hk).
Qed.

End TreeFacts.

(** X17.  [detectTrees] never changes the scan or the parameters, running
    it twice in a row gives what one run gives, and a run that reaches
    the clustering builds its result list from the scan and the
    parameters alone: whatever the list held before is replaced. *)
Theorem detectTrees_idempotent (s : Detect.system) :
  Detect.scanData (Detect.detectTrees s) = Detect.scanData s
  /\ Detect.scan_params (Detect.detectTrees s) = Detect.scan_params s
  /\ Detect.detection_params (Detect.detectTrees s) = Detect.detection_params s
  /\ Detect.detectTrees (Detect.detectTrees s) = Detect.detectTrees s
  /\ (forall earlier,
        Detect.scanData s <> [] ->
        (Js.num_of_nat (List.length (Detect.validPoints s))
         <? Detect.minPoints (Detect.detection_params s))%float = false ->
        Detect.detectTrees
          {| Detect.scanData := Detect.scanData s;
             Detect.trees := earlier;
             Detect.scan_params := Detect.scan_params s;
             Detect.detection_params := Detect.detection_params s |}
        = Detect.detectTrees s).
Proof.
  unfold Detect.detectTrees, Detect.validPoints.
  destruct (Detect.scanData s) as [|p rest] eqn:Escan.
  - rewrite Escan. repeat split; try assumption. intros earlier H. congruence.
  - cbv zeta.
    destruct (Js.num_of_nat _ <? _)%float eqn:Ecount.
    + rewrite Escan. cbv zeta. rewrite Ecount.
      repeat split; try assumption. intros earlier _ H. congruence.
    + cbn [Detect.scanData Detect.scan_params Detect.detection_params].
      rewrite Ecount. repeat split.
Qed.

(** X18.  In a run that reaches the clustering, every tree has at least 3
    member entries and at least [minPoints] of them, every member is a
    sample of the scan whose distance lies strictly between [minRange]
    and [maxRange], and there are no more trees than clusters. *)
Theorem detectTrees_members (s : Detect.system) :
  Detect.scanData s <> [] ->
  (Js.num_of_nat (List.length (Detect.validPoints s))
   <? Detect.minPoints (Detect.detection_params s))%float = false ->
  Forall
    (fun t =>
       (3 <= List.length (Detect.tree_points t))%nat
       /\ (Detect.minPoints (Detect.detection_params s)
           <=? Js.num_of_nat (List.length (Detect.tree_points t)))%float = true
       /\ Forall
            (fun p =>
               In p (Detect.scanData s)
               /\ (Detect.minRange (Detect.scan_params s) <? distance p)%float = true
               /\ (distance p <? Detect.maxRange (Detect.scan_params s))%float = true)
            (Detect.tree_points t))
    (Detect.trees (Detect.detectTrees s))
  /\ (List.length (Detect.trees (Detect.detectTrees s))
      <= List.length (Detect.dbscan (Detect.detection_params s) (Detect.validPoints s)))%nat.
Proof.
  intros Hscan Hcount.
  rewrite (detectTrees_trees s Hscan Hcount).
  split; [|apply length_flat_map_detect].
  apply Forall_forall. intros t Ht.
  apply in_flat_map in Ht as [cluster [Hin Ht]].
  apply detect_cluster_spec in Ht as (c & Hfit & Hmin & _ & _ & ->).
  cbn [Detect.tree_points].
  assert (Hlen : List.length (Detect.cluster_points (Detect.validPoints s) cluster)
                 = List.length cluster).
  { apply cluster_points_length. intros k Hk.
    apply (dbscan_members_lt _ _ cluster k Hin Hk). }
  split; [apply (fitCircle_some_length _ c Hfit)|].
  split; [rewrite Hlen; exact Hmin|].
  apply Forall_forall. intros p Hp.
  apply cluster_points_In in Hp.
  unfold Detect.validPoints in Hp. apply filter_In in Hp as [Hp Hrange].
  apply andb_true_iff in Hrange as [Hlo Hhi].
  repeat split; assumption.
Qed.

Lemma detectTrees_members_witness :
  Forall
    (fun t =>
       (3 <= List.length (Detect.tree_points t))%nat
       /\ (Detect.minPoints (Detect.detection_params Scans.trunk_system)
           <=? Js.num_of_nat (List.length (Detect.tree_points t)))%float = true
       /\ Forall
            (fun p =>
               In p (Detect.scanData Scans.trunk_system)
               /\ (Detect.minRange (Detect.scan_params Scans.trunk_system)
                   <? distance p)%float = true
               /\ (distance p
                   <? Detect.maxRange (Detect.scan_params Scans.trunk_system))%float = true)
            (Detect.tree_points t))
    (Detect.trees (Detect.detectTrees Scans.trunk_system))
  /\ (List.length (Detect.trees (Detect.detectTrees Scans.trunk_system))
      <= List.length
           (Detect.dbscan (Detect.detection_params Scans.trunk_system)
              (Detect.validPoints Scans.trunk_system)))%nat.
Proof.
  apply (detectTrees_members Scans.trunk_system).
  - discriminate.
  - vm_compute. reflexivity.
Defined.

(** ** The relay server *)

Section RelayFacts.
Import Relay.
Local Open Scope string_scope.

Lemma map_get_map_set (key k : string) (c : client) (m : list (string * client)) :
  map_get k (map_set key c m) = if String.eqb k key then Some c else map_get k m.
Proof.
induction m as [|[k' c'] m IH]; cbn [map_set map_get].
- destruct (String.eqb_spec key k) as [->|Hne].
  + now rewrite String.eqb_refl.
  + destruct (String.eqb_spec k key) as [->|_]; [congruence|reflexivity].
- destruct (String.eqb_spec k' key) as [->|Hne]; cbn [map_get].
  + destruct (String.eqb_spec key k) as [->|Hne].
    * now rewrite String.eqb_refl.
    * destruct (String.eqb_spec k key) as [->|_]; [congruence|reflexivity].
  + destruct (String.eqb_spec k' k) as [->|Hne'].
    * destruct (String.eqb_spec k key) as [->|_]; [congruence|reflexivity].
    * exact IH.
Qed.

Lemma map_set_keys (key : string) (c c0 : client) (m : list (string * client)) :
  map_get key m = Some c0 -> map fst (map_set key c m) = map fst m.
Proof.
induction m as [|[k' c'] m IH]; cbn [map_set map_get]; [discriminate|].
destruct (String.eqb_spec k' key) as [->|Hne]; intros H; cbn [map fst].
- reflexivity.
- now rewrite IH.
Qed.

Lemma map_set_others (key : string) (c : client) (p : client -> bool)
    (m : list (string * client)) :
  filter (fun kc => negb (String.eqb (fst kc) key) && p (snd kc)) (map_set key c m)
  = filter (fun kc => negb (String.eqb (fst kc) key) && p (snd kc)) m.
Proof.
induction m as [|[k' c'] m IH]; cbn [map_set filter fst snd].
- now rewrite String.eqb_refl.
- destruct (String.eqb_spec k' key) as [->|Hne]; cbn [filter fst snd].
  + now rewrite String.eqb_refl.
  + destruct (String.eqb_spec k' key) as [|_]; [congruence|].
    cbn [negb andb]. now rewrite IH.
Qed.

Lemma broadcastToOthers_filter (is_open : nat -> bool) (m : list (string * client))
    (senderId : string) (data : value) :
  broadcastToOthers is_open m senderId data
  = map (fun kc => (ws (snd kc), data))
      (filter (fun kc => negb (String.eqb (fst kc) senderId) && is_open (ws (snd kc))) m).
Proof.
unfold broadcastToOthers, sendToClient.
induction m as [|[k c] m IH]; cbn [flat_map filter fst snd]; [reflexivity|].
rewrite IH.
destruct (negb (String.eqb k senderId)); cbn [andb]; [|reflexivity].
destruct (is_open (ws c)); reflexivity.
Qed.

Lemma broadcast_filter (is_open : nat -> bool) (m : list (string * client))
    (data : value) :
  broadcast is_open m data
  = map (fun kc => (ws (snd kc), data)) (filter (fun kc => is_open (ws (snd kc))) m).
Proof.
unfold broadcast, sendToClient.
induction m as [|[k c] m IH]; cbn [flat_map filter fst snd]; [reflexivity|].
rewrite IH.
destruct (is_open (ws c)); reflexivity.
Qed.

Lemma sendToClient_open (is_open : nat -> bool) (socket : nat) (data : value) :
  Forall (fun x => is_open (fst x) = true) (sendToClient is_open socket data).
Proof.
unfold sendToClient. destruct (is_open socket) eqn:E; repeat constructor. exact E.
Qed.

Lemma broadcastToOthers_open (is_open : nat -> bool) (m : list (string * client))
    (senderId : string) (data : value) :
  Forall (fun x => is_open (fst x) = true) (broadcastToOthers is_open m senderId data).
Proof.
rewrite broadcastToOthers_filter. apply Forall_forall. intros x Hx.
apply in_map_iff in Hx. destruct Hx as [kc [<- Hkc]].
apply filter_In in Hkc. destruct Hkc as [_ Hkc].
apply andb_true_iff in Hkc. exact (proj2 Hkc).
Qed.

Lemma broadcast_open (is_open : nat -> bool) (m : list (string * client))
    (data : value) :
  Forall (fun x => is_open (fst x) = true) (broadcast is_open m data).
Proof.
rewrite broadcast_filter. apply Forall_forall. intros x Hx.
apply in_map_iff in Hx. destruct Hx as [kc [<- Hkc]].
apply filter_In in Hkc. exact (proj2 Hkc).
Qed.

Lemma length_slice_last {A} (n : nat) (l : list A) :
  List.length (slice_last n l) = Nat.min n (List.length l).
Proof. unfold slice_last. rewrite length_skipn. lia. Qed.

Lemma addToHistory_window (history : list value) (data : value) :
  addToHistory history data
  = skipn (S (List.length history) - maxHistorySize) (history ++ [data]).
Proof.
unfold addToHistory, slice_last. rewrite length_app. cbn [List.length].
replace (List.length history + 1)%nat with (S (List.length history)) by lia.
destruct (Nat.ltb_spec maxHistorySize (S (List.length history))) as [H|H].
- reflexivity.
- replace (S (List.length history) - maxHistorySize)%nat with 0%nat by lia.
  reflexivity.
Qed.

Lemma length_addToHistory (history : list value) (data : value) :
  List.length (addToHistory history data)
  = Nat.min maxHistorySize (S (List.length history)).
Proof.
rewrite addToHistory_window, length_skipn, length_app. cbn [List.length]. lia.
Qed.

Lemma handleClientMessage_history (toISOString : Z -> string) (is_open : nat -> bool)
    (s : server) (clientId : string) (parsed : option value) (tick : nat -> Z) :
  let s' := fst (handleClientMessage toISOString is_open s clientId parsed tick) in
  dataHistory s' = dataHistory s
  \/ exists record, dataHistory s' = addToHistory (dataHistory s) record.
Proof.
unfold handleClientMessage.
destruct parsed as [data|]; [|now left].
destruct (map_get clientId (clients s)) as [c|]; [|now left].
destruct data; try (now left);
  (destruct (get _ "type") as [| | | |type| | |]; try (now left);
   repeat (match goal with |- context [if String.eqb type ?k then _ else _] =>
             destruct (String.eqb type k) end;
           try (now left); try (right; eexists; reflexivity))).
Qed.

End RelayFacts.

Section RelayTheorems.
Import Relay.
Local Open Scope string_scope.
Variable toISOString : Z -> string.
Variable is_open : nat -> bool.

(** The sender's entry once [lastActivity] is set. *)
Let touched (c : client) (now : Z) : client :=
  {| id := id c; ws := ws c; ip := ip c; connectedAt := connectedAt c;
     lastActivity := now; deviceType := deviceType c; deviceName := deviceName c |}.

Lemma handleClientMessage_data (s : server) (clientId type : string) (data : value)
    (tick : nat -> Z) (c : client) (keys : list string) :
  map_get clientId (clients s) = Some c ->
  get data "type" = VString type ->
  In (type, keys)
    [("scan_data", scan_keys); ("tree_data", tree_keys); ("height_data", height_keys)] ->
  handleClientMessage toISOString is_open s clientId (Some data) tick
  = handleData toISOString is_open
      {| clients := map_set clientId (touched c (tick 0%nat)) (clients s);
         dataHistory := dataHistory s |}
      type clientId (tick 1%nat) data keys.
Proof.
intros Hc Htype Hin. unfold handleClientMessage. rewrite Hc.
destruct data; try discriminate Htype.
rewrite Htype.
destruct Hin as [E|[E|[E|[]]]]; inversion E; subst; reflexivity.
Qed.

Lemma handleClientMessage_status (s : server) (clientId : string) (data : value)
    (tick : nat -> Z) (c : client) :
  map_get clientId (clients s) = Some c ->
  get data "type" = VString "status_update" ->
  handleClientMessage toISOString is_open s clientId (Some data) tick
  = handleStatusUpdate toISOString is_open
      {| clients := map_set clientId (touched c (tick 0%nat)) (clients s);
         dataHistory := dataHistory s |}
      clientId (tick 1%nat) data.
Proof.
intros Hc Htype. unfold handleClientMessage. rewrite Hc.
destruct data; try discriminate Htype.
rewrite Htype. reflexivity.
Qed.

Lemma others_after_touch (m : list (string * client)) (clientId : string) (c : client)
    (record : value) :
  broadcastToOthers is_open (map_set clientId c m) clientId record
  = map (fun kc => (ws (snd kc), record))
      (filter (fun kc => negb (String.eqb (fst kc) clientId) && is_open (ws (snd kc))) m).
Proof.
rewrite broadcastToOthers_filter.
pose proof (map_set_others clientId c (fun c => is_open (ws c)) m) as E.
cbv beta in E. now rewrite E.
Qed.

End RelayTheorems.

(** X19.  A [scan_data], [tree_data], [height_data] or [status_update]
    message of a connected client is relayed as one record (its type, the
    sender's id, the time stamp and the copied properties) to exactly the
    other clients whose socket is open, once each and in the order of the
    client map; the sender's own entry receives nothing. *)
Theorem relay_recipients (toISOString : Z -> string) (is_open : nat -> bool)
    (s : Relay.server) (clientId type : string) (data : Relay.value)
    (tick : nat -> Z) (c : Relay.client) :
  Relay.map_get clientId (Relay.clients s) = Some c ->
  Relay.get data "type" = Relay.VString type ->
  In type ["scan_data"; "tree_data"; "height_data"; "status_update"]%string ->
  exists keys,
    let record := Relay.relayed toISOString type clientId (tick 1%nat) data keys in
    In (type, keys)
      [("scan_data", Relay.scan_keys); ("tree_data", Relay.tree_keys);
       ("height_data", Relay.height_keys);
       ("status_update", Relay.status_keys)]%string
    /\ snd (Relay.handleClientMessage toISOString is_open s clientId (Some data) tick)
    = map (fun kc => (Relay.ws (snd kc), record))
        (filter (fun kc => negb (String.eqb (fst kc) clientId)
                           && is_open (Relay.ws (snd kc)))
           (Relay.clients s))
    /\ Relay.get record "type" = Relay.VString type
    /\ Relay.get record "clientId" = Relay.VString clientId
    /\ Relay.get record "data"
       = Relay.VObject (map (fun key => (key, Relay.get data key)) keys).
Proof.
intros Hc Htype Hin.
assert (Hcases :
  (exists keys, In (type, keys)
     [("scan_data", Relay.scan_keys); ("tree_data", Relay.tree_keys);
      ("height_data", Relay.height_keys)]%string)
  \/ type = "status_update"%string).
{ destruct Hin as [<-|[<-|[<-|[<-|[]]]]].
  - left. eexists. left. reflexivity.
  - left. eexists. right. left. reflexivity.
  - left. eexists. right. right. left. reflexivity.
  - now right. }
destruct Hcases as [[keys Hk]| ->].
- exists keys. cbv zeta.
  rewrite (handleClientMessage_data toISOString is_open s clientId type data tick c keys Hc Htype Hk).
  unfold Relay.handleData. cbn [snd Relay.clients].
  rewrite others_after_touch.
  split; [cbn [In] in *; tauto|].
  split; [reflexivity|]. split; [reflexivity|]. split; reflexivity.
- exists Relay.status_keys. cbv zeta.
  rewrite (handleClientMessage_status toISOString is_open s clientId data tick c Hc Htype).
  unfold Relay.handleStatusUpdate. cbn [snd Relay.clients].
  rewrite others_after_touch.
  split; [cbn [In]; tauto|].
  split; [reflexivity|]. split; [reflexivity|]. split; reflexivity.
Qed.

Lemma relay_recipients_witness :
  exists keys,
    let record :=
      Relay.relayed Sessions.iso "tree_data" "a" 1 Sessions.tree_message keys in
    In ("tree_data"%string, keys)
      [("scan_data", Relay.scan_keys); ("tree_data", Relay.tree_keys);
       ("height_data", Relay.height_keys);
       ("status_update", Relay.status_keys)]%string
    /\ snd (Relay.handleClientMessage Sessions.iso Sessions.two_open
              Sessions.three_clients "a" (Some Sessions.tree_message) Z.of_nat)
       = map (fun kc => (Relay.ws (snd kc), record))
           (filter (fun kc => negb (String.eqb (fst kc) "a")
                              && Sessions.two_open (Relay.ws (snd kc)))
              (Relay.clients Sessions.three_clients))
    /\ Relay.get record "type" = Relay.VString "tree_data"
    /\ Relay.get record "clientId" = Relay.VString "a"
    /\ Relay.get record "data"
       = Relay.VObject
           (map (fun key => (key, Relay.get Sessions.tree_message key)) keys).
Proof.
apply (relay_recipients Sessions.iso Sessions.two_open Sessions.three_clients
         "a" "tree_data" Sessions.tree_message Z.of_nat (Sessions.member "a" 1)).
- reflexivity.
- reflexivity.
- right. left. reflexivity.
Defined.

(** The goals of a property of [handleClientMessage], one per way
    through the function. *)
Ltac message_cases parsed s clientId :=
  unfold Relay.handleClientMessage;
  destruct parsed as [[| | | | | | |fields]|]; cbn [Relay.get];
  destruct (Relay.map_get clientId (Relay.clients s)) as [c|];
  try destruct (Relay.lookup "type" fields) as [| | | |type| | |] eqn:Hlookup;
  repeat match goal with
         | |- context [if String.eqb ?t ?k then _ else _] =>
             destruct (String.eqb_spec t k) as [->|?]
         end.

(** X20.  Whatever the event (a connection, a message, a close) and the
    state, the server sends only on sockets that are open when the event
    is handled. *)
Theorem handle_sends_only_open (toISOString : Z -> string) (s : Relay.server)
    (o : Relay.occurrence) :
  Forall (fun x => Relay.open_sockets o (fst x) = true)
    (snd (Relay.handle toISOString s o)).
Proof.
unfold Relay.handle.
destruct (Relay.what o) as [clientId socket address|clientId parsed|clientId].
- unfold Relay.handleConnection. cbn [snd].
  apply Forall_app. split; [apply sendToClient_open|].
  apply Forall_app. split.
  + destruct (Relay.dataHistory s); [constructor|apply sendToClient_open].
  + apply broadcast_open.
- message_cases parsed s clientId; cbn [snd];
    unfold Relay.handleData, Relay.handleStatusUpdate; cbn [snd];
    try (now constructor);
    try apply broadcastToOthers_open;
    try apply sendToClient_open.
  match goal with |- context [if ?b then _ else _] => destruct b end;
    [apply broadcast_open|constructor].
- unfold Relay.handleClose. cbn [snd]. apply broadcast_open.
Qed.

(** X21.  A [scan_data], [tree_data] or [height_data] message of a
    connected client puts its record at the end of the history, which
    keeps the last 1000 entries: the history becomes the last 1000 of the
    old entries followed by the record, so it has
    [min 1000 (length + 1)] entries and the record is the last one. *)
Theorem data_message_stored (toISOString : Z -> string) (is_open : nat -> bool)
    (s : Relay.server) (clientId type : string) (data : Relay.value)
    (tick : nat -> Z) (c : Relay.client) (keys : list string) :
  Relay.map_get clientId (Relay.clients s) = Some c ->
  Relay.get data "type" = Relay.VString type ->
  In (type, keys)
    [("scan_data", Relay.scan_keys); ("tree_data", Relay.tree_keys);
     ("height_data", Relay.height_keys)]%string ->
  let record := Relay.relayed toISOString type clientId (tick 1%nat) data keys in
  let history :=
    Relay.dataHistory
      (fst (Relay.handleClientMessage toISOString is_open s clientId (Some data) tick)) in
  history
  = skipn (S (List.length (Relay.dataHistory s)) - 1000)
      (Relay.dataHistory s ++ [record])
  /\ List.length history = Nat.min 1000 (S (List.length (Relay.dataHistory s)))
  /\ last history Relay.VUndefined = record.
Proof.
intros Hc Htype Hin record history.
assert (E : history = Relay.addToHistory (Relay.dataHistory s) record).
{ unfold history.
  rewrite (handleClientMessage_data toISOString is_open s clientId type data tick c keys
             Hc Htype Hin).
  reflexivity. }
rewrite E. split; [apply addToHistory_window|].
split; [apply length_addToHistory|].
rewrite addToHistory_window. unfold Relay.maxHistorySize.
set (h := Relay.dataHistory s).
set (n := (S (List.length h) - 1000)%nat).
assert (Hn : (n <= List.length h)%nat) by (unfold n; lia).
rewrite skipn_app.
replace (n - List.length h)%nat with 0%nat by lia.
cbn [skipn]. apply last_last.
Qed.

Lemma data_message_stored_witness :
  let record :=
    Relay.relayed Sessions.iso "tree_data" "a" 1 Sessions.tree_message Relay.tree_keys in
  let history :=
    Relay.dataHistory
      (fst (Relay.handleClientMessage Sessions.iso Sessions.two_open
              Sessions.three_clients "a" (Some Sessions.tree_message) Z.of_nat)) in
  history
  = skipn (S (List.length (Relay.dataHistory Sessions.three_clients)) - 1000)
      (Relay.dataHistory Sessions.three_clients ++ [record])
  /\ List.length history
     = Nat.min 1000 (S (List.length (Relay.dataHistory Sessions.three_clients)))
  /\ last history Relay.VUndefined = record.
Proof.
apply (data_message_stored Sessions.iso Sessions.two_open Sessions.three_clients
         "a" "tree_data" Sessions.tree_message Z.of_nat (Sessions.member "a" 1)
         Relay.tree_keys).
- reflexivity.
- reflexivity.
- right. left. reflexivity.
Defined.

(** X22.  Every other message leaves the history as it is: one that does
    not parse, one of an unknown client, and one whose [type] is none of
    [scan_data], [tree_data] and [height_data] ([status_update],
    [device_info], [ping], anything else, or no string at all). *)
Theorem other_messages_keep_history (toISOString : Z -> string)
    (is_open : nat -> bool) (s : Relay.server) (clientId : string)
    (parsed : option Relay.value) (tick : nat -> Z) :
  (forall data type,
     parsed = Some data -> Relay.get data "type" = Relay.VString type ->
     Relay.map_get clientId (Relay.clients s) <> None ->
     ~ In type ["scan_data"; "tree_data"; "height_data"]%string) ->
  Relay.dataHistory
    (fst (Relay.handleClientMessage toISOString is_open s clientId parsed tick))
  = Relay.dataHistory s.
Proof.
intros H.
message_cases parsed s clientId; try reflexivity;
  exfalso;
  (eapply H; [reflexivity|cbn [Relay.get]; eassumption|discriminate|cbn [In]; tauto]).
Qed.

Lemma other_messages_keep_history_witness :
  Relay.dataHistory
    (fst (Relay.handleClientMessage Sessions.iso Sessions.two_open
            Sessions.three_clients "a" (Some Sessions.ping_message) Z.of_nat))
  = Relay.dataHistory Sessions.three_clients.
Proof.
apply (other_messages_keep_history Sessions.iso Sessions.two_open
         Sessions.three_clients "a" (Some Sessions.ping_message) Z.of_nat).
intros data type Hdata Htype _.
injection Hdata as <-. vm_compute in Htype. injection Htype as <-.
cbn [In]. intros [E|[E|[E|[]]]]; discriminate E.
Defined.

(** X23.  Over any sequence of connections, messages and closes the
    history never grows beyond 1000 entries, or beyond its length at the
    start when that was larger; from the empty history of the constructor
    it has at most 1000. *)
Theorem run_history_bounded (toISOString : Z -> string) (s : Relay.server)
    (os : list Relay.occurrence) :
  (List.length (Relay.dataHistory (Relay.replay toISOString s os))
   <= Nat.max 1000 (List.length (Relay.dataHistory s)))%nat
  /\ (List.length (Relay.dataHistory (Relay.replay toISOString Relay.constructor os))
      <= 1000)%nat.
Proof.
assert (G : forall os s,
  (List.length (Relay.dataHistory (Relay.replay toISOString s os))
   <= Nat.max 1000 (List.length (Relay.dataHistory s)))%nat).
{ clear. intros os. induction os as [|o os IH]; intros s.
  - unfold Relay.replay. cbn [fold_left]. lia.
  - unfold Relay.replay. cbn [fold_left]. fold (Relay.replay toISOString).
    etransitivity; [apply IH|].
    assert (Hstep :
      (List.length (Relay.dataHistory (fst (Relay.handle toISOString s o)))
       <= Nat.max 1000 (List.length (Relay.dataHistory s)))%nat).
    { unfold Relay.handle.
      destruct (Relay.what o) as [clientId socket address|clientId parsed|clientId].
      - unfold Relay.handleConnection. cbn [fst Relay.dataHistory]. lia.
      - destruct (handleClientMessage_history toISOString (Relay.open_sockets o) s
                    clientId parsed (Relay.clock o)) as [E|[record E]];
          rewrite E; [lia|].
        rewrite length_addToHistory. unfold Relay.maxHistorySize. lia.
      - unfold Relay.handleClose. cbn [fst Relay.dataHistory]. lia. }
    lia. }
split; [apply G|].
specialize (G os Relay.constructor). cbn [Relay.constructor Relay.dataHistory List.length] in G.
lia.
Qed.

(** X24.  A message changes the client map only at its sender: the keys
    and their order stay, every other entry stays, and of the sender's
    entry the id, the socket, the address and the connection time stay
    (only [lastActivity], [deviceType] and [deviceName] can change). *)
Theorem message_touches_only_sender (toISOString : Z -> string)
    (is_open : nat -> bool) (s : Relay.server) (clientId : string)
    (parsed : option Relay.value) (tick : nat -> Z) :
  let s' := fst (Relay.handleClientMessage toISOString is_open s clientId parsed tick) in
  map fst (Relay.clients s') = map fst (Relay.clients s)
  /\ (forall k, k <> clientId ->
        Relay.map_get k (Relay.clients s') = Relay.map_get k (Relay.clients s))
  /\ (forall c', Relay.map_get clientId (Relay.clients s') = Some c' ->
        exists c, Relay.map_get clientId (Relay.clients s) = Some c
                  /\ Relay.id c' = Relay.id c /\ Relay.ws c' = Relay.ws c
                  /\ Relay.ip c' = Relay.ip c
                  /\ Relay.connectedAt c' = Relay.connectedAt c).
Proof.
cbv zeta.
destruct (Relay.map_get clientId (Relay.clients s)) as [c0|] eqn:Hc.
- assert (Hset : forall c1, 
    map fst (Relay.map_set clientId c1 (Relay.clients s)) = map fst (Relay.clients s)
    /\ (forall k, k <> clientId ->
          Relay.map_get k (Relay.map_set clientId c1 (Relay.clients s))
          = Relay.map_get k (Relay.clients s))
    /\ Relay.map_get clientId (Relay.map_set clientId c1 (Relay.clients s)) = Some c1).
  { intros c1. split; [exact (map_set_keys clientId c1 c0 _ Hc)|]. split.
    - intros k Hk. rewrite map_get_map_set.
      destruct (String.eqb_spec k clientId); [contradiction|reflexivity].
    - rewrite map_get_map_set. now rewrite String.eqb_refl. }
  assert (Hset2 : forall c1 c2,
    map fst (Relay.map_set clientId c2 (Relay.map_set clientId c1 (Relay.clients s)))
    = map fst (Relay.clients s)
    /\ (forall k, k <> clientId ->
          Relay.map_get k
            (Relay.map_set clientId c2 (Relay.map_set clientId c1 (Relay.clients s)))
          = Relay.map_get k (Relay.clients s))
    /\ Relay.map_get clientId
         (Relay.map_set clientId c2 (Relay.map_set clientId c1 (Relay.clients s)))
       = Some c2).
  { intros c1 c2. destruct (Hset c1) as [K1 [K2 K3]]. split.
    - rewrite (map_set_keys clientId c2 c1 _ K3). exact K1.
    - split.
      + intros k Hk. rewrite map_get_map_set.
        destruct (String.eqb_spec k clientId); [contradiction|]. now apply K2.
      + rewrite map_get_map_set. now rewrite String.eqb_refl. }
  unfold Relay.handleClientMessage. rewrite Hc.
  destruct parsed as [[| | | | | | |fields]|]; cbn [Relay.get];
  try destruct (Relay.lookup "type" fields) as [| | | |type| | |];
  repeat match goal with
         | |- context [if String.eqb ?t ?k then _ else _] =>
             destruct (String.eqb_spec t k) as [->|?]
         end;
  unfold Relay.handleData, Relay.handleStatusUpdate; cbn [fst Relay.clients];
  try (split; [reflexivity|]; split; [reflexivity|];
       intros c' Hc'; rewrite Hc in Hc'; injection Hc' as <-; exists c0;
       repeat split; reflexivity);
  try (match goal with
       | |- context [Relay.map_set clientId ?c2 (Relay.map_set clientId ?c1 _)] =>
           destruct (Hset2 c1 c2) as [K1 [K2 K3]]
       | |- context [Relay.map_set clientId ?c1 _] =>
           destruct (Hset c1) as [K1 [K2 K3]]
       end;
       split; [exact K1|]; split; [exact K2|];
       intros c' Hc'; rewrite K3 in Hc'; injection Hc' as <-; exists c0;
       repeat split; reflexivity).
- assert (E : fst (Relay.handleClientMessage toISOString is_open s clientId parsed tick) = s).
  { unfold Relay.handleClientMessage. rewrite Hc. now destruct parsed. }
  rewrite E. split; [reflexivity|]. split; [reflexivity|].
  intros c' Hc'. congruence.
Qed.
